(** * Variable indices of anemoi-models: [data_indices/tensor.py] and
    [data_indices/index.py]

    A shallow embedding of the two modules and the properties of the index
    arrays they build.

    - A Python [dict[str, int]] is an insertion-ordered association list
      whose keys are pairwise distinct ([dict_wf]); iteration order matters
      for the derived prognostic list.
    - A Python [list[str]] is a [list string]; [set(...)] is a [gset string].
    - A one-dimensional integer tensor is the list of its elements; the
      conversions of a list of ints into a float32 and then an int32 tensor
      are written out in [torch].
    - Raising is modelled by the [result] monad; [assert] statements are
      enabled, as they are unless the interpreter runs with [-O]. *)

From Stdlib Require Import ZArith Lia.
From stdpp Require Import base list sorting strings gmap.

(** ** Python values *)

Abbreviation dict := (list (string * Z)).
Abbreviation tensor := (list Z).

Definition dict_wf (d : dict) : Prop := NoDup d.*1.

(** [d.keys()] and [d.items()], in iteration order. *)
Definition keys (d : dict) : list string := d.*1.
Definition items (d : dict) : list (string * Z) := d.

(** [d[k]] for a key that is present; [None] stands for [KeyError]. *)
Fixpoint dict_get (d : dict) (k : string) : option Z :=
  match d with
  | [] => None
  | (k', v) :: d => if decide (k = k') then Some v else dict_get d k
  end.

(** ** Exceptions *)

Inductive exn :=
  | AssertionError (invalid_entries : list string)
  | OverflowError
  | RuntimeError.

Inductive result (A : Type) :=
  | Ok (a : A)
  | Raise (e : exn).
Arguments Ok {A} a.
Arguments Raise {A} e.

Definition bind {A B} (r : result A) (k : A → result B) : result B :=
  match r with
  | Ok a => k a
  | Raise e => Raise e
  end.

Notation "x <- r ;; k" := (bind r (λ x, k))
  (at level 100, r at next level, right associativity).

(** [assert c, msg]: the message is evaluated only when [c] is false. *)
Definition assert (c : bool) (msg : exn) : result unit :=
  if c then Ok () else Raise msg.

(** Python's [a and b] on two boolean computations: [b] is evaluated only
    when [a] is true. *)
Definition and_then (a b : result bool) : result bool :=
  x <- a ;; if x then b else Ok false.

(** An argument of [__eq__]: an instance of the class the method tests
    for (or of a subclass), or a value of an unrelated type. *)
Inductive value :=
  | VNone
  | VInt (z : Z)
  | VStr (s : string)
  | VList (l : list Z).

Inductive operand (T : Type) :=
  | Instance (x : T)
  | Unrelated (v : value).
Arguments Instance {T} x.
Arguments Unrelated {T} v.

(** What [__eq__] returns. *)
Inductive cmp :=
  | Bool (b : bool)
  | NotImplemented.

(** The value of an attribute that [__init__] binds on an instance of a
    tensor index. *)
Inductive attribute :=
  | AttrDict (d : dict)
  | AttrNames (l : list string)
  | AttrTensor (t : tensor).

(** ** Builtins *)

(** [sorted] on a list of integers. *)
Definition sorted (l : list Z) : list Z := merge_sort Z.le l.

(** [set] on a list of strings. *)
Definition set (l : list string) : gset string := list_to_set l.

(** ** The part of torch the modules use *)

Module torch.
Local Open Scope Z_scope.

(** The multiple of [2^k] nearest to [a >= 0], ties to the even multiple. *)
Definition round_shift (k a : Z) : Z :=
  let q := a / 2 ^ k in
  let r := a mod 2 ^ k in
  let half := 2 ^ (k - 1) in
  if r <? half then q * 2 ^ k
  else if half <? r then (q + 1) * 2 ^ k
  else (if Z.even q then q else q + 1) * 2 ^ k.

(** The integer nearest to [i] with at most [p] significant bits. *)
Definition round_prec (p i : Z) : Z :=
  let a := Z.abs i in
  let k := Z.log2 a + 1 - p in
  if k <=? 0 then i else Z.sgn i * round_shift k a.

(** The float32 of a Python int: the int is unpacked as a C double (53
    significant bits), which is narrowed to float (24 bits).  The float of
    an integer is an integer. *)
Definition float32 (i : Z) : Z := round_prec 24 (round_prec 53 i).

(** Whether a Python int can be unpacked as a C double: [PyFloat_AsDouble]
    rounds it to 53 significant bits and raises [OverflowError] when the
    rounded value reaches 2^1024. *)
Definition fits_double (i : Z) : bool :=
  Z.abs (round_prec 53 i) <? 2 ^ 1024.

(** [torch.Tensor(l)] on a list of Python ints: the legacy constructor
    builds a float32 tensor, and raises [OverflowError] when an int of the
    list is beyond the range of a double.  (Where a double is beyond the
    range of a float the narrowing yields an infinity; the model keeps the
    rounded integer, which is out of the range of [int32] like the
    infinity.) *)
Definition Tensor (l : list Z) : result (list Z) :=
  if forallb fits_double l then Ok (float32 <$> l) else Raise OverflowError.

(** [.to(torch.int)] on a float32 tensor of integral values: the value
    itself when it fits 32 bits; otherwise the C++ cast is undefined and
    the model takes x86's result. *)
Definition int32 (x : Z) : Z :=
  if (- 2 ^ 31 <=? x) && (x <? 2 ^ 31) then x else - 2 ^ 31.
Definition to_int (t : list Z) : tensor := int32 <$> t.

(** Sizes of two one-dimensional tensors broadcast when they are equal
    or one of them is 1. *)
Definition broadcast (a b : tensor) : result (tensor * tensor) :=
  if decide (length a = length b) then Ok (a, b)
  else if decide (length a = 1%nat) then Ok (flat_map (λ _, a) b, b)
  else if decide (length b = 1%nat) then Ok (a, flat_map (λ _, b) a)
  else Raise RuntimeError.

(** [torch.isclose] with the default [rtol=1e-05], [atol=1e-08], by the
    formula of its documentation: equal, or |x - y| <= atol + rtol * |y|,
    here in exact arithmetic with both sides scaled by 10^8.  torch
    evaluates the inequality in float32; the two agree unless the sides are
    within rounding of each other, which is not the case where the
    properties below use it (a tolerance below 1 against a difference of
    at least 1, and a tolerance of about 10 against a difference of 1). *)
Definition isclose (x y : Z) : bool :=
  bool_decide (x = y)
  || bool_decide (10 ^ 8 * Z.abs (x - y) ≤ 1 + 10 ^ 3 * Z.abs y).

(** [torch.allclose(a, b)]. *)
Definition allclose (a b : tensor) : result bool :=
  p <- broadcast a b ;;
  Ok (forallb (λ xy, isclose xy.1 xy.2) (zip p.1 p.2)).
End torch.

(** ** tensor.py *)

Module BaseTensorIndex.
Record t := mk {
  name_to_index : dict;
  includes : list string;
  prognostic : tensor;
  diagnostic : tensor;
  forcing : tensor;
  targets : tensor;
  full : tensor;
}.

Definition _build_idx_from_list (name_to_index : dict)
    (var_list : list string) : result tensor :=
  float_tensor <- torch.Tensor (sorted
    (filter (λ ni, ni.1 ∈ var_list) (items name_to_index)).*2) ;;
  let sorted_variables := torch.to_int float_tensor in
  Ok sorted_variables.

(** The assert comes first; the five arrays are then built in the order
    of the assignments, and the first call that raises ends the
    construction. *)
Definition __init__ (prognostic diagnostic forcing targets includes : list string)
    (name_to_index : dict) : result t :=
  _ <- assert (bool_decide (set includes ⊆ set (keys name_to_index)))
        (AssertionError
           (filter (λ var, var ∉ keys name_to_index) includes)) ;;
  self_prognostic <- _build_idx_from_list name_to_index prognostic ;;
  self_diagnostic <- _build_idx_from_list name_to_index diagnostic ;;
  self_forcing <- _build_idx_from_list name_to_index forcing ;;
  self_targets <- _build_idx_from_list name_to_index targets ;;
  self_full <- _build_idx_from_list name_to_index includes ;;
  Ok {| name_to_index := name_to_index;
        includes := includes;
        prognostic := self_prognostic;
        diagnostic := self_diagnostic;
        forcing := self_forcing;
        targets := self_targets;
        full := self_full |}.

Definition __len__ (self : t) : nat := length (full self).

(** The body of [__eq__] once [isinstance(other, BaseTensorIndex)] holds. *)
Definition eq_instance (self other : t) : result bool :=
  and_then (torch.allclose (prognostic self) (prognostic other))
 (and_then (torch.allclose (diagnostic self) (diagnostic other))
 (and_then (torch.allclose (forcing self) (forcing other))
 (and_then (torch.allclose (targets self) (targets other))
           (torch.allclose (full self) (full other))))).

Definition __eq__ (self : t) (other : operand t) : result cmp :=
  match other with
  | Unrelated _ => Ok NotImplemented
  | Instance other => b <- eq_instance self other ;; Ok (Bool b)
  end.

Definition todict (self : t) : gmap string tensor :=
  {[ "prognostic" := prognostic self;
     "diagnostic" := diagnostic self;
     "forcing" := forcing self;
     "targets" := targets self;
     "full" := full self ]}.

(** The attributes bound on the instance by [__init__]. *)
Definition __dict__ (self : t) : gmap string attribute :=
  {[ "name_to_index" := AttrDict (name_to_index self);
     "includes" := AttrNames (includes self);
     "prognostic" := AttrTensor (prognostic self);
     "diagnostic" := AttrTensor (diagnostic self);
     "forcing" := AttrTensor (forcing self);
     "targets" := AttrTensor (targets self);
     "full" := AttrTensor (full self) ]}.

(** [getattr(self, key)] for a name bound on the instance; [None] stands
    for a name that is not, which Python resolves on the class (a method
    or another class attribute) or reports with [AttributeError]. *)
Definition __getitem__ (self : t) (key : string) : option attribute :=
  __dict__ self !! key.
End BaseTensorIndex.

Module InputTensorIndex.
Record t := mk {
  base :> BaseTensorIndex.t;
  _known_future_variables : list string;
  _additional_model_variables : list string;
}.

Definition __init__ (prognostic diagnostic forcing targets includes : list string)
    (name_to_index : dict) (kwargs : gmap string (list string)) : result t :=
  super <- BaseTensorIndex.__init__ prognostic diagnostic forcing targets
             includes name_to_index ;;
  Ok {| base := super;
        _known_future_variables :=
          default [] (kwargs !! "known_future_variables");
        _additional_model_variables :=
          default [] (kwargs !! "additional_model_variables") |}.

Definition __len__ (self : t) : nat :=
  length (BaseTensorIndex.prognostic self)
  + length (BaseTensorIndex.forcing self)
  + 2 * length (_known_future_variables self)
  + length (_additional_model_variables self).

Definition __dict__ (self : t) : gmap string attribute :=
  <[ "_additional_model_variables" :=
       AttrNames (_additional_model_variables self) ]>
    (<[ "_known_future_variables" :=
          AttrNames (_known_future_variables self) ]>
       (BaseTensorIndex.__dict__ (base self))).

(** The inherited [__getitem__] on an input index. *)
Definition __getitem__ (self : t) (key : string) : option attribute :=
  __dict__ self !! key.
End InputTensorIndex.
Coercion InputTensorIndex.base : InputTensorIndex.t >-> BaseTensorIndex.t.

Module OutputTensorIndex.
Record t := mk { base :> BaseTensorIndex.t }.

(** The keyword arguments are handed to the base constructor, which
    ignores them. *)
Definition __init__ (prognostic diagnostic forcing targets includes : list string)
    (name_to_index : dict) (kwargs : gmap string (list string)) : result t :=
  super <- BaseTensorIndex.__init__ prognostic diagnostic forcing targets
             includes name_to_index ;;
  Ok {| base := super |}.

Definition __len__ (self : t) : nat := length (BaseTensorIndex.full self).
End OutputTensorIndex.
Coercion OutputTensorIndex.base : OutputTensorIndex.t >-> BaseTensorIndex.t.

(** ** index.py *)

Module BaseIndex.
(** [input] and [output] as the two subclasses leave them. *)
Record t := mk {
  input : InputTensorIndex.t;
  output : OutputTensorIndex.t;
}.

(** [self.input == other.input] on two tensor indices runs
    [BaseTensorIndex.__eq__], whose [isinstance] test holds. *)
Definition __eq__ (self : t) (other : operand t) : result cmp :=
  match other with
  | Unrelated _ => Ok NotImplemented
  | Instance other =>
      b <- and_then
             (BaseTensorIndex.eq_instance (input self) (input other))
             (BaseTensorIndex.eq_instance (output self) (output other)) ;;
      Ok (Bool b)
  end.

Definition todict (self : t) : gmap string (gmap string tensor) :=
  {[ "input" := BaseTensorIndex.todict (input self);
     "output" := BaseTensorIndex.todict (output self) ]}.

(** [getattr(self, key)] for the two attributes every variable index
    binds; the subclasses bind their role lists and mappings besides,
    which this table leaves to [None] like the names resolved on the
    class. *)
Definition __getitem__ (self : t) (key : string)
    : option (InputTensorIndex.t + OutputTensorIndex.t) :=
  if decide (key = "input") then Some (inl (input self))
  else if decide (key = "output") then Some (inr (output self))
  else None.
End BaseIndex.

(** [[v for v in name_to_index.keys()
      if v not in set(forcing + diagnostic + targets)]] *)
Definition derive_prognostic (forcing diagnostic targets : list string)
    (name_to_index : dict) : list string :=
  filter (λ v, v ∉ set (forcing ++ diagnostic ++ targets))
    (keys name_to_index).

Module DataIndex.
Record t := mk {
  base :> BaseIndex.t;
  _diagnostic : list string;
  _forcing : list string;
  _targets : list string;
  _prognostic : list string;
  _name_to_index : dict;
}.

Definition __init__ (diagnostic forcing targets : list string)
    (name_to_index : dict) : result t :=
  let _prognostic :=
    derive_prognostic forcing diagnostic targets name_to_index in
  input <- InputTensorIndex.__init__ _prognostic diagnostic forcing targets
             (forcing ++ _prognostic) name_to_index ∅ ;;
  output <- OutputTensorIndex.__init__ _prognostic diagnostic forcing targets
              (diagnostic ++ targets) name_to_index ∅ ;;
  Ok {| base := BaseIndex.mk input output;
        _diagnostic := diagnostic;
        _forcing := forcing;
        _targets := targets;
        _prognostic := _prognostic;
        _name_to_index := name_to_index |}.
End DataIndex.
Coercion DataIndex.base : DataIndex.t >-> BaseIndex.t.

Module ModelIndex.
Record t := mk {
  base :> BaseIndex.t;
  _diagnostic : list string;
  _forcing : list string;
  _targets : list string;
  _prognostic : list string;
  _known_future_variables : list string;
  _additional_model_variables : list string;
  _name_to_index_model_input : dict;
  _name_to_index_model_output : dict;
}.

Definition __init__ (diagnostic forcing targets : list string)
    (name_to_index_model_input name_to_index_model_output : dict)
    (known_future_variables additional_model_variables : list string)
    : result t :=
  let _prognostic :=
    derive_prognostic forcing diagnostic targets name_to_index_model_input in
  input <- InputTensorIndex.__init__ _prognostic diagnostic forcing targets
             (forcing ++ _prognostic) name_to_index_model_input
             {[ "additional_model_variables" := additional_model_variables;
                "known_future_variables" := known_future_variables ]} ;;
  output <- OutputTensorIndex.__init__ _prognostic diagnostic forcing targets
              (diagnostic ++ targets) name_to_index_model_output ∅ ;;
  Ok {| base := BaseIndex.mk input output;
        _diagnostic := diagnostic;
        _forcing := forcing;
        _targets := targets;
        _prognostic := _prognostic;
        _known_future_variables := known_future_variables;
        _additional_model_variables := additional_model_variables;
        _name_to_index_model_input := name_to_index_model_input;
        _name_to_index_model_output := name_to_index_model_output |}.
End ModelIndex.
Coercion ModelIndex.base : ModelIndex.t >-> BaseIndex.t.

(** ** Well-formed inputs *)

(** Positions that survive the way through the float32 tensor; every
    integer from -2^24 to 2^24 does ([exact_position_small]). *)
Definition exact_position (i : Z) : Prop :=
  torch.int32 (torch.float32 i) = i.
Definition dict_exact (d : dict) : Prop := Forall exact_position d.*2.

(** Distinct names have distinct positions. *)
Definition dict_injective (d : dict) : Prop := NoDup d.*2.

(** The positions [_build_idx_from_list] collects, before sorting. *)
Definition positions (d : dict) (var_list : list string) : list Z :=
  (filter (λ ni, ni.1 ∈ var_list) (items d)).*2.

(** Positions in the range of a C double, which [torch.Tensor] accepts. *)
Definition finite_position (i : Z) : Prop := torch.fits_double i = true.
Definition dict_finite (d : dict) : Prop := Forall finite_position d.*2.

(** The positions that the five calls of [_build_idx_from_list] in
    [BaseTensorIndex.__init__] hand to [torch.Tensor]. *)
Definition collected (d : dict)
    (prognostic diagnostic forcing targets includes : list string) : list Z :=
  positions d (prognostic ++ diagnostic ++ forcing ++ targets ++ includes).

(** The array [_build_idx_from_list] returns, when it returns. *)
Definition index_array (d : dict) (var_list : list string) : tensor :=
  torch.to_int (torch.float32 <$> sorted (positions d var_list)).

(** The index array of a role as the specification words it: intersect
    the set of the role's names with the mapping's keys, look the
    positions up, sort ascending. *)
Definition spec_index (d : dict) (var_list : list string) : list Z :=
  sorted (omap (dict_get d) (elements (set var_list ∩ set (keys d)))).

(** What the specification asks of the index array [arr] of a role with
    name list [R]: every entry is the position of a name of [R] that is a
    key, no position of a name outside [R] occurs, and the array is the
    ascending sort of the positions of the keys in [R]. *)
Definition role_index_ok (d : dict) (R : list string) (arr : tensor) : Prop :=
  (∀ p, p ∈ arr → ∃ n, n ∈ R ∧ n ∈ keys d ∧ dict_get d n = Some p) ∧
  (∀ n p, n ∉ R → dict_get d n = Some p → p ∉ arr) ∧
  arr = spec_index d R.

(** Strictly ascending, hence without duplicates. *)
Definition strictly_ascending (arr : tensor) : Prop :=
  StronglySorted Z.lt arr ∧ NoDup arr.

(** The five index arrays of a tensor index, in the order [__eq__]
    compares them. *)
Definition arrays (t : BaseTensorIndex.t) : list tensor :=
  [BaseTensorIndex.prognostic t; BaseTensorIndex.diagnostic t;
   BaseTensorIndex.forcing t; BaseTensorIndex.targets t;
   BaseTensorIndex.full t].

(** Positions below 10^5 in absolute value: there the tolerance of
    [isclose], 1e-08 + 1e-05 * |y|, stays below 1. *)
Definition small_position (y : Z) : Prop := (Z.abs y ≤ 99999)%Z.

(** In both indices of a variable index, [full] holds what the two role
    arrays it is made of hold: forcing and prognostic in the input index,
    diagnostic and targets in the output index. *)
Definition full_is_union (index : BaseIndex.t) : Prop :=
  (∀ x, x ∈ BaseTensorIndex.full (BaseIndex.input index)
        ↔ x ∈ BaseTensorIndex.forcing (BaseIndex.input index)
          ∨ x ∈ BaseTensorIndex.prognostic (BaseIndex.input index)) ∧
  (∀ x, x ∈ BaseTensorIndex.full (BaseIndex.output index)
        ↔ x ∈ BaseTensorIndex.diagnostic (BaseIndex.output index)
          ∨ x ∈ BaseTensorIndex.targets (BaseIndex.output index)).

(** [index[side][role]]: the inherited [__getitem__] of the variable
    index, then that of the tensor index it returns. *)
Definition getitem_path (index : BaseIndex.t) (side role : string)
    : option attribute :=
  match BaseIndex.__getitem__ index side with
  | Some (inl ti) => InputTensorIndex.__getitem__ ti role
  | Some (inr to) => BaseTensorIndex.__getitem__ to role
  | None => None
  end.

(** Positions whose float32 fits the int32 tensor, where the cast is
    defined. *)
Definition safe_position (i : Z) : Prop := (Z.abs i ≤ 2 ^ 31 - 128)%Z.
Definition dict_safe (d : dict) : Prop := Forall safe_position d.*2.

(** The role arrays that [full] is made of are subsequences of it. *)
Definition roles_within_full (index : BaseIndex.t) : Prop :=
  BaseTensorIndex.forcing (BaseIndex.input index)
  `sublist_of` BaseTensorIndex.full (BaseIndex.input index) ∧
  BaseTensorIndex.prognostic (BaseIndex.input index)
  `sublist_of` BaseTensorIndex.full (BaseIndex.input index) ∧
  BaseTensorIndex.diagnostic (BaseIndex.output index)
  `sublist_of` BaseTensorIndex.full (BaseIndex.output index) ∧
  BaseTensorIndex.targets (BaseIndex.output index)
  `sublist_of` BaseTensorIndex.full (BaseIndex.output index).

(** No prognostic position is a diagnostic, forcing or target position. *)
Definition prognostic_apart (t : BaseTensorIndex.t) : Prop :=
  ∀ p, p ∈ BaseTensorIndex.prognostic t →
       (p ∉ BaseTensorIndex.diagnostic t) ∧
       (p ∉ BaseTensorIndex.forcing t) ∧
       (p ∉ BaseTensorIndex.targets t).

(** Two arrays whose sizes neither agree nor broadcast. *)
Definition shape_mismatch (ab : tensor * tensor) : Prop :=
  length ab.1 ≠ length ab.2 ∧ length ab.1 ≠ 1%nat ∧ length ab.2 ≠ 1%nat.

(** ** Example inputs *)

(** The scenario of the specification. *)
Definition ex_map : dict :=
  [("t", 0); ("u", 1); ("v", 2); ("z", 3); ("sp", 4)]%Z.

(** The input index of the scenario, and one with another prognostic
    role list. *)
Definition ex_index : BaseTensorIndex.t :=
  BaseTensorIndex.mk ex_map ["sp"; "t"; "u"; "v"]
    [0; 1; 2]%Z [3%Z] [4%Z] [] [0; 1; 2; 4]%Z.
Definition ex_index' : BaseTensorIndex.t :=
  BaseTensorIndex.mk ex_map ["sp"; "t"; "u"; "v"]
    [0; 1; 3]%Z [2%Z] [4%Z] [] [0; 1; 2; 4]%Z.

(** A mapping with a single variable. *)
Definition one_map : dict := [("a", 0%Z)].

(** Two mappings that place the same variable at neighbouring, large
    positions. *)
Definition far_map : dict := [("a", 1000000%Z)].
Definition far_map' : dict := [("a", 1000001%Z)].

(** Two neighbouring positions just above what a float32 separates. *)
Definition wide_map : dict := [("a", 16777216); ("b", 16777217)]%Z.

(** A position beyond the range of a C double. *)
Definition huge_map : dict := [("a", 2 ^ 1024)%Z].

(** * Properties *)

(** ** The tensor conversion *)

Section conversion.
Local Open Scope Z_scope.

Lemma round_prec_exact p i :
  0 < p → Z.abs i ≤ 2 ^ p → torch.round_prec p i = i.
Proof.
  intros Hp Hi. unfold torch.round_prec.
  destruct (Z.leb_spec (Z.log2 (Z.abs i) + 1 - p) 0) as [|Hk]; [done|].
  assert (Z.abs i = 2 ^ p) as Habs.
  { destruct (Z.eq_dec (Z.abs i) (2 ^ p)) as [|Hne]; [done|].
    assert (0 < Z.abs i) as Hpos.
    { destruct (Z.eq_dec (Z.abs i) 0) as [H0|]; [|lia].
      rewrite H0 in Hk. simpl in Hk. lia. }
    assert (Z.log2 (Z.abs i) < p); [|lia].
    apply Z.log2_lt_pow2; [done|lia]. }
  assert (Z.log2 (Z.abs i) = p) as Hlog.
  { rewrite Habs. apply Z.log2_pow2. lia. }
  rewrite Hlog, Habs. replace (p + 1 - p) with 1 by lia.
  unfold torch.round_shift. simpl (2 ^ (1 - 1)). change (2 ^ 1) with 2.
  assert (2 ^ p = 2 * 2 ^ (p - 1)) as Hpow.
  { rewrite <-Z.pow_succ_r by lia. f_equal. lia. }
  assert (2 ^ p mod 2 = 0) as ->.
  { rewrite Hpow, Z.mul_comm. apply Z.mod_mul. lia. }
  simpl. assert (2 ^ p / 2 = 2 ^ (p - 1)) as ->.
  { rewrite Hpow, Z.mul_comm. apply Z.div_mul. lia. }
  rewrite (Z.mul_comm _ 2), <-Hpow, <-Habs. lia.
Qed.

Lemma exact_position_small i : - 2 ^ 24 ≤ i ≤ 2 ^ 24 → exact_position i.
Proof.
  intros [Hlo Hhi]. unfold exact_position, torch.float32.
  rewrite (round_prec_exact 53 i), (round_prec_exact 24 i) by lia.
  unfold torch.int32.
  destruct (Z.leb_spec (- 2 ^ 31) i), (Z.ltb_spec i (2 ^ 31)); simpl; lia.
Qed.

Lemma to_int_float32_exact l :
  Forall exact_position l → torch.to_int (torch.float32 <$> l) = l.
Proof.
  intros Hl. unfold torch.to_int.
  rewrite <-list_fmap_compose. rewrite <-(list_fmap_id l) at 2.
  by apply Forall_fmap_ext_1.
Qed.

Lemma length_to_int_float32 l :
  length (torch.to_int (torch.float32 <$> l)) = length l.
Proof. unfold torch.to_int. by rewrite !length_fmap. Qed.

Lemma int32_range x : - 2 ^ 31 ≤ torch.int32 x < 2 ^ 31.
Proof.
  unfold torch.int32.
  destruct (Z.leb_spec (- 2 ^ 31) x), (Z.ltb_spec x (2 ^ 31)); simpl; lia.
Qed.

(** Every int of at most 53 bits is a double, and so is every position
    that comes back from the tensor as it went in. *)
Lemma finite_position_small i : Z.abs i ≤ 2 ^ 53 → finite_position i.
Proof.
  intros Hi. unfold finite_position, torch.fits_double.
  rewrite round_prec_exact by lia. apply Z.ltb_lt.
  assert (2 ^ 53 < 2 ^ 1024) by (by apply Z.pow_lt_mono_r).
  lia.
Qed.

Lemma exact_position_finite i : exact_position i → finite_position i.
Proof.
  unfold exact_position. intros Hi. apply finite_position_small.
  pose proof (int32_range (torch.float32 i)) as Hr. rewrite Hi in Hr. lia.
Qed.

Lemma forallb_fits_double l :
  forallb torch.fits_double l = true ↔ Forall finite_position l.
Proof.
  induction l as [|i l IH]; simpl; [by split; [constructor|]|].
  by rewrite andb_true_iff, Forall_cons, IH.
Qed.

Lemma Forall_finite_dec l :
  Forall finite_position l ∨ ¬ Forall finite_position l.
Proof.
  destruct (forallb torch.fits_double l) eqn:Hall.
  - left. by apply forallb_fits_double.
  - right. intros Hl%forallb_fits_double. congruence.
Qed.

Lemma Tensor_Ok l :
  Forall finite_position l → torch.Tensor l = Ok (torch.float32 <$> l).
Proof.
  intros Hl%forallb_fits_double. unfold torch.Tensor. by rewrite Hl.
Qed.

Lemma Tensor_Raise l :
  ¬ Forall finite_position l → torch.Tensor l = Raise OverflowError.
Proof.
  intros Hl. unfold torch.Tensor.
  destruct (forallb _ _) eqn:Hall; [|done].
  by apply forallb_fits_double in Hall.
Qed.
End conversion.

(** ** Sorting *)

Section sorting_facts.
Lemma sorted_Permutation l : sorted l ≡ₚ l.
Proof. apply merge_sort_Permutation. Qed.

Lemma sorted_StronglySorted l : StronglySorted Z.le (sorted l).
Proof. apply (StronglySorted_merge_sort _). Qed.

Lemma sorted_proper l1 l2 : l1 ≡ₚ l2 → sorted l1 = sorted l2.
Proof.
  intros Hl. apply (StronglySorted_unique Z.le);
    auto using sorted_StronglySorted.
  by rewrite !sorted_Permutation.
Qed.

Lemma elem_of_sorted x l : x ∈ sorted l ↔ x ∈ l.
Proof. by rewrite sorted_Permutation. Qed.

Lemma length_sorted l : length (sorted l) = length l.
Proof. by rewrite sorted_Permutation. Qed.

Lemma StronglySorted_le_lt l :
  StronglySorted Z.le l → NoDup l → StronglySorted Z.lt l.
Proof.
  induction 1 as [|x l _ IH Hx]; intros Hnd; [constructor|].
  apply NoDup_cons in Hnd as [Hxl Hnd]. constructor; [by apply IH|].
  apply Forall_forall. intros y Hy.
  rewrite Forall_forall in Hx. specialize (Hx y Hy).
  assert (x ≠ y) by (intros ->; done). lia.
Qed.

Lemma StronglySorted_lt_NoDup l : StronglySorted Z.lt l → NoDup l.
Proof.
  induction 1 as [|x l _ IH Hx]; constructor; [|done].
  intros Hin. rewrite Forall_forall in Hx. specialize (Hx x Hin). lia.
Qed.

Lemma sorted_strict l : NoDup l → StronglySorted Z.lt (sorted l).
Proof.
  intros Hnd. apply StronglySorted_le_lt; [apply sorted_StronglySorted|].
  by rewrite sorted_Permutation.
Qed.
End sorting_facts.

(** ** Dictionaries *)

Section dict_facts.
Implicit Types (d : dict) (n : string) (i : Z) (R : list string).

Lemma filter_ext_in {A} (P Q : A → Prop) `{!∀ x, Decision (P x)}
    `{!∀ x, Decision (Q x)} (l : list A) :
  (∀ x, x ∈ l → P x ↔ Q x) → filter P l = filter Q l.
Proof.
  induction l as [|x l IH]; intros HPQ; [done|].
  rewrite !filter_cons, IH by (intros; apply HPQ; by right).
  destruct (decide (P x)) as [HP|HP], (decide (Q x)) as [HQ|HQ];
    try done; apply HPQ in HP || apply HPQ in HQ; done || by left.
Qed.

Lemma dict_get_Some d n i : dict_wf d → (n, i) ∈ d → dict_get d n = Some i.
Proof.
  unfold dict_wf. induction d as [|[n' i'] d IH]; simpl; [by inv 2|].
  intros [Hn' Hd]%NoDup_cons [[= -> ->]|Hin]%elem_of_cons.
  - by rewrite decide_True.
  - rewrite decide_False; [by apply IH|].
    intros ->. apply Hn'. by apply (list_elem_of_fmap_2 fst _ (n', i)).
Qed.

Lemma dict_get_elem_of d n i : dict_get d n = Some i → (n, i) ∈ d.
Proof.
  induction d as [|[n' i'] d IH]; simpl; [done|].
  case_decide as Hn; [intros [= ->]; subst; left|right; auto].
Qed.

Lemma dict_get_is_Some d n : is_Some (dict_get d n) ↔ n ∈ keys d.
Proof.
  unfold keys. induction d as [|[n' i'] d IH]; simpl.
  - split; [by intros [? ?]|by inv 1].
  - case_decide as Hn; [subst; split; [left|eauto]|].
    rewrite IH, elem_of_cons. split; [by right|by intros [?|?]].
Qed.

Lemma elem_of_positions d R i :
  i ∈ positions d R ↔ ∃ n, n ∈ R ∧ (n, i) ∈ d.
Proof.
  unfold positions, items. rewrite list_elem_of_fmap. split.
  - intros [[n i'] [-> [? ?]%list_elem_of_filter]]. eauto.
  - intros (n & ? & ?). exists (n, i). by rewrite list_elem_of_filter.
Qed.

Lemma positions_sublist d R : positions d R `sublist_of` d.*2.
Proof. apply fmap_sublist, sublist_filter. Qed.

Lemma positions_NoDup d R : dict_injective d → NoDup (positions d R).
Proof. intros Hd. eapply sublist_NoDup; [done|apply positions_sublist]. Qed.

Lemma positions_exact d R :
  dict_exact d → Forall exact_position (positions d R).
Proof.
  unfold dict_exact. rewrite !Forall_forall. intros Hd i Hi.
  eapply Hd, elem_of_sublist; [done|apply positions_sublist].
Qed.

Lemma positions_finite d R :
  dict_finite d → Forall finite_position (positions d R).
Proof.
  unfold dict_finite. rewrite !Forall_forall. intros Hd i Hi.
  eapply Hd, elem_of_sublist; [done|apply positions_sublist].
Qed.

Lemma dict_exact_finite d : dict_exact d → dict_finite d.
Proof.
  unfold dict_exact, dict_finite. intros Hd.
  eapply Forall_impl; [exact Hd|apply exact_position_finite].
Qed.

Lemma Forall_positions_app (P : Z → Prop) d R R' :
  Forall P (positions d (R ++ R'))
  ↔ Forall P (positions d R) ∧ Forall P (positions d R').
Proof.
  rewrite !Forall_forall. split.
  - intros Happ. split; intros i (n & Hn & Hni)%elem_of_positions;
      apply Happ, elem_of_positions; exists n; rewrite elem_of_app; auto.
  - intros [HR HR'] i (n & [Hn|Hn]%elem_of_app & Hni)%elem_of_positions;
      [apply HR|apply HR']; apply elem_of_positions; eauto.
Qed.

(** Role lists that together name every key collect every position. *)
Lemma positions_cover (P : Z → Prop) d R :
  keys d ⊆ R → Forall P (positions d R) → Forall P d.*2.
Proof.
  intros Hcover. rewrite !Forall_forall. intros HR i Hi.
  apply list_elem_of_fmap in Hi as ([n i'] & -> & Hni).
  apply HR, elem_of_positions. exists n. split; [|done].
  by apply Hcover, (list_elem_of_fmap_2 fst _ (n, i')).
Qed.

Lemma dict_injective_eq d n n' i :
  dict_injective d → (n, i) ∈ d → (n', i) ∈ d → n = n'.
Proof.
  unfold dict_injective. induction d as [|[m j] d IH]; csimpl; [by inv 2|].
  intros [Hj Hnd]%NoDup_cons [[= -> ->]|H1]%elem_of_cons
    [[= ->]|H2]%elem_of_cons; subst; [done| | |by apply IH].
  - destruct Hj. by apply (list_elem_of_fmap_2 snd _ (n', j)).
  - destruct Hj. by apply (list_elem_of_fmap_2 snd _ (n, j)).
Qed.

(** Only the set of names of the role list matters. *)
Lemma positions_ext d R R' :
  (∀ n, n ∈ R ↔ n ∈ R') → positions d R = positions d R'.
Proof.
  intros HR. unfold positions. f_equal. apply list_filter_iff.
  intros [n i]. apply HR.
Qed.

Lemma omap_dict_get d (l : list (string * Z)) :
  dict_wf d → l ⊆ d → omap (dict_get d) l.*1 = l.*2.
Proof.
  intros Hd. induction l as [|[n i] l IH]; intros Hl; [done|]. csimpl.
  rewrite (dict_get_Some d n i), IH; [done| |done|]; set_solver.
Qed.

(** The code's list of positions is the one the specification
    describes, up to order. *)
Lemma positions_spec d R :
  dict_wf d →
  positions d R ≡ₚ
    omap (dict_get d) (elements (set R ∩ set (keys d))).
Proof.
  intros Hd. unfold positions, items.
  rewrite <-(omap_dict_get d) by (done || apply list_subseteq_filter).
  apply omap_Permutation, NoDup_Permutation.
  - eapply sublist_NoDup; [exact Hd|]. apply fmap_sublist, sublist_filter.
  - apply NoDup_elements.
  - intros n. unfold set. rewrite elem_of_elements, elem_of_intersection,
      !elem_of_list_to_set, list_elem_of_fmap. unfold keys. split.
    + intros [[n' i] [-> [? ?]%list_elem_of_filter]]. split; [done|].
      by apply (list_elem_of_fmap_2 fst _ (n', i)).
    + intros [? [[n' i] [-> ?]]%list_elem_of_fmap]. exists (n', i).
      by rewrite list_elem_of_filter.
Qed.
End dict_facts.

(** ** Construction of a tensor index *)

Section construction.
Implicit Types (d : dict) (R includes : list string).
Implicit Types (t : BaseTensorIndex.t).

Lemma issubset_spec includes d :
  set includes ⊆ set (keys d) ↔ includes ⊆ keys d.
Proof. unfold set. set_solver. Qed.

Lemma set_eq_elem_of R R' : set R = set R' → ∀ n, n ∈ R ↔ n ∈ R'.
Proof.
  unfold set. intros Heq n.
  by rewrite <-!(elem_of_list_to_set (C:=gset string)), Heq.
Qed.

Lemma bind_Ok {A B} (r : result A) (k : A → result B) b :
  bind r k = Ok b → ∃ a, r = Ok a ∧ k a = Ok b.
Proof. destruct r as [a|e]; simpl; [eauto|done]. Qed.

(** [_build_idx_from_list] returns [index_array] when every position it
    collects is in the range of a double, and raises otherwise. *)
Lemma build_idx_Ok d R :
  Forall finite_position (positions d R) →
  BaseTensorIndex._build_idx_from_list d R = Ok (index_array d R).
Proof.
  intros Hfin. unfold BaseTensorIndex._build_idx_from_list.
  fold (positions d R). rewrite Tensor_Ok; [done|].
  by rewrite sorted_Permutation.
Qed.

Lemma build_idx_Raise d R :
  ¬ Forall finite_position (positions d R) →
  BaseTensorIndex._build_idx_from_list d R = Raise OverflowError.
Proof.
  intros Hfin. unfold BaseTensorIndex._build_idx_from_list.
  fold (positions d R). rewrite Tensor_Raise; [done|].
  by rewrite sorted_Permutation.
Qed.

Lemma build_idx_inv d R arr :
  BaseTensorIndex._build_idx_from_list d R = Ok arr →
  Forall finite_position (positions d R) ∧ arr = index_array d R.
Proof.
  intros Hbuild.
  destruct (Forall_finite_dec (positions d R)) as [Hfin|Hfin].
  - rewrite build_idx_Ok in Hbuild by done. by injection Hbuild as <-.
  - by rewrite build_idx_Raise in Hbuild.
Qed.

Lemma Forall_collected (P : Z → Prop) prognostic diagnostic forcing targets
    includes d :
  Forall P (collected d prognostic diagnostic forcing targets includes)
  ↔ Forall P (positions d prognostic) ∧ Forall P (positions d diagnostic) ∧
    Forall P (positions d forcing) ∧ Forall P (positions d targets) ∧
    Forall P (positions d includes).
Proof. unfold collected. by rewrite !Forall_positions_app. Qed.

Lemma init_Ok prognostic diagnostic forcing targets includes d :
  includes ⊆ keys d →
  Forall finite_position
    (collected d prognostic diagnostic forcing targets includes) →
  BaseTensorIndex.__init__ prognostic diagnostic forcing targets includes d
  = Ok (BaseTensorIndex.mk d includes
          (index_array d prognostic)
          (index_array d diagnostic)
          (index_array d forcing)
          (index_array d targets)
          (index_array d includes)).
Proof.
  intros Hsub (Hp & Hg & Hf & Ht & Hi)%Forall_collected.
  unfold BaseTensorIndex.__init__.
  rewrite bool_decide_true by by apply issubset_spec.
  simpl. rewrite (build_idx_Ok d prognostic) by done.
  simpl. rewrite (build_idx_Ok d diagnostic) by done.
  simpl. rewrite (build_idx_Ok d forcing) by done.
  simpl. rewrite (build_idx_Ok d targets) by done.
  simpl. by rewrite (build_idx_Ok d includes) by done.
Qed.

Lemma init_Raise prognostic diagnostic forcing targets includes d :
  ¬ includes ⊆ keys d →
  BaseTensorIndex.__init__ prognostic diagnostic forcing targets includes d
  = Raise (AssertionError (filter (λ var, var ∉ keys d) includes)).
Proof.
  intros Hsub. unfold BaseTensorIndex.__init__.
  by rewrite bool_decide_false by by rewrite issubset_spec.
Qed.

(** With every name of [includes] a key, the only error left is that of
    [torch.Tensor]. *)
Lemma init_Overflow prognostic diagnostic forcing targets includes d :
  includes ⊆ keys d →
  ¬ Forall finite_position
      (collected d prognostic diagnostic forcing targets includes) →
  BaseTensorIndex.__init__ prognostic diagnostic forcing targets includes d
  = Raise OverflowError.
Proof.
  intros Hsub Hfin. rewrite Forall_collected in Hfin.
  unfold BaseTensorIndex.__init__.
  rewrite bool_decide_true by by apply issubset_spec. simpl.
  destruct (Forall_finite_dec (positions d prognostic)) as [Hp|Hp];
    [rewrite (build_idx_Ok d prognostic) by done; simpl
    |by rewrite (build_idx_Raise d prognostic)].
  destruct (Forall_finite_dec (positions d diagnostic)) as [Hg|Hg];
    [rewrite (build_idx_Ok d diagnostic) by done; simpl
    |by rewrite (build_idx_Raise d diagnostic)].
  destruct (Forall_finite_dec (positions d forcing)) as [Hf|Hf];
    [rewrite (build_idx_Ok d forcing) by done; simpl
    |by rewrite (build_idx_Raise d forcing)].
  destruct (Forall_finite_dec (positions d targets)) as [Ht|Ht];
    [rewrite (build_idx_Ok d targets) by done; simpl
    |by rewrite (build_idx_Raise d targets)].
  destruct (Forall_finite_dec (positions d includes)) as [Hi|Hi];
    [tauto|by rewrite (build_idx_Raise d includes)].
Qed.

(** What a construction that returns has gone through: the assert held
    and each of the five calls returned its array. *)
Lemma init_builds prognostic diagnostic forcing targets includes d t :
  BaseTensorIndex.__init__ prognostic diagnostic forcing targets includes d
  = Ok t →
  BaseTensorIndex._build_idx_from_list d prognostic
  = Ok (BaseTensorIndex.prognostic t) ∧
  BaseTensorIndex._build_idx_from_list d diagnostic
  = Ok (BaseTensorIndex.diagnostic t) ∧
  BaseTensorIndex._build_idx_from_list d forcing
  = Ok (BaseTensorIndex.forcing t) ∧
  BaseTensorIndex._build_idx_from_list d targets
  = Ok (BaseTensorIndex.targets t) ∧
  BaseTensorIndex._build_idx_from_list d includes
  = Ok (BaseTensorIndex.full t).
Proof.
  unfold BaseTensorIndex.__init__.
  intros (_ & _ & (p & Hp & (g & Hg & (f & Hf & (tg & Ht & (i & Hi & [= <-])
    %bind_Ok)%bind_Ok)%bind_Ok)%bind_Ok)%bind_Ok)%bind_Ok.
  done.
Qed.

Lemma init_finite prognostic diagnostic forcing targets includes d t :
  BaseTensorIndex.__init__ prognostic diagnostic forcing targets includes d
  = Ok t →
  Forall finite_position
    (collected d prognostic diagnostic forcing targets includes).
Proof.
  intros (Hp & Hg & Hf & Ht & Hi)%init_builds. apply Forall_collected.
  split_and!; by eapply build_idx_inv.
Qed.

Lemma init_inv prognostic diagnostic forcing targets includes d t :
  BaseTensorIndex.__init__ prognostic diagnostic forcing targets includes d
  = Ok t →
  includes ⊆ keys d ∧
  t = BaseTensorIndex.mk d includes
        (index_array d prognostic)
        (index_array d diagnostic)
        (index_array d forcing)
        (index_array d targets)
        (index_array d includes).
Proof.
  intros Hinit.
  destruct (decide (includes ⊆ keys d)) as [Hsub|Hsub].
  - rewrite init_Ok in Hinit by (done || by eapply init_finite).
    by injection Hinit as <-.
  - by rewrite init_Raise in Hinit.
Qed.

(** The two subclasses build their base part with the base constructor. *)
Lemma input_init_inv prognostic diagnostic forcing targets includes d kw ti :
  InputTensorIndex.__init__ prognostic diagnostic forcing targets includes
    d kw = Ok ti →
  BaseTensorIndex.__init__ prognostic diagnostic forcing targets includes d
  = Ok (InputTensorIndex.base ti) ∧
  InputTensorIndex._known_future_variables ti
  = default [] (kw !! "known_future_variables") ∧
  InputTensorIndex._additional_model_variables ti
  = default [] (kw !! "additional_model_variables").
Proof.
  unfold InputTensorIndex.__init__.
  destruct (BaseTensorIndex.__init__ _ _ _ _ _ _); simpl; [|done].
  by intros [= <-].
Qed.

Lemma output_init_inv prognostic diagnostic forcing targets includes d kw to :
  OutputTensorIndex.__init__ prognostic diagnostic forcing targets includes
    d kw = Ok to →
  BaseTensorIndex.__init__ prognostic diagnostic forcing targets includes d
  = Ok (OutputTensorIndex.base to).
Proof.
  unfold OutputTensorIndex.__init__.
  destruct (BaseTensorIndex.__init__ _ _ _ _ _ _); simpl; [|done].
  by intros [= <-].
Qed.

(** On exactly representable positions an index array is the sorted list
    of the positions collected from the mapping. *)
Lemma build_idx_exact d R :
  dict_exact d →
  index_array d R = sorted (positions d R).
Proof.
  intros Hd. unfold index_array. apply to_int_float32_exact.
  rewrite sorted_Permutation. by apply positions_exact.
Qed.

Lemma build_idx_spec d R :
  dict_wf d → dict_exact d →
  index_array d R = spec_index d R.
Proof.
  intros Hwf Hd. rewrite build_idx_exact by done.
  by apply sorted_proper, positions_spec.
Qed.

Lemma build_idx_strict d R :
  dict_exact d → dict_injective d →
  StronglySorted Z.lt (index_array d R).
Proof.
  intros Hd Hinj. rewrite build_idx_exact by done.
  by apply sorted_strict, positions_NoDup.
Qed.

Lemma build_idx_ext d R R' :
  (∀ n, n ∈ R ↔ n ∈ R') →
  index_array d R
  = index_array d R'.
Proof.
  intros HR. unfold index_array. by rewrite (positions_ext d R R').
Qed.

Lemma build_idx_role_ok d R :
  dict_wf d → dict_exact d → dict_injective d →
  role_index_ok d R (index_array d R).
Proof.
  intros Hwf Hexact Hinj. split_and!; [| |by apply build_idx_spec].
  - intros p.
    rewrite build_idx_exact, elem_of_sorted, elem_of_positions by done.
    intros (n & HnR & Hnp). exists n.
    split_and!; [done| |by apply dict_get_Some].
    apply dict_get_is_Some. erewrite dict_get_Some; eauto.
  - intros n p HnR Hget.
    rewrite build_idx_exact, elem_of_sorted, elem_of_positions by done.
    intros (n' & Hn'R & Hn'p). apply dict_get_elem_of in Hget.
    by rewrite (dict_injective_eq d n n' p) in HnR.
Qed.

Lemma length_build_idx d R :
  length (index_array d R)
  = length (filter (λ ni, ni.1 ∈ R) d).
Proof.
  unfold index_array, positions, items.
  by rewrite length_to_int_float32, length_sorted, length_fmap.
Qed.

(** Names of a role list that are not keys contribute nothing. *)
Lemma positions_keys d R :
  positions d R = positions d (filter (λ n, n ∈ keys d) R).
Proof.
  unfold positions, items. f_equal.
  apply filter_ext_in. intros [n i] Hin. rewrite list_elem_of_filter. simpl.
  split; [|by intros [_ ?]]. split; [|done].
  by apply (list_elem_of_fmap_2 fst _ (n, i)).
Qed.

Lemma build_idx_keys d R :
  index_array d R
  = index_array d (filter (λ n, n ∈ keys d) R).
Proof. unfold index_array. by rewrite <-positions_keys. Qed.

Lemma build_idx_from_list_keys d R :
  BaseTensorIndex._build_idx_from_list d R
  = BaseTensorIndex._build_idx_from_list d (filter (λ n, n ∈ keys d) R).
Proof.
  unfold BaseTensorIndex._build_idx_from_list.
  fold (positions d R) (positions d (filter (λ n, n ∈ keys d) R)).
  by rewrite <-positions_keys.
Qed.



Lemma not_subseteq_keys includes d :
  ¬ includes ⊆ keys d ↔ ∃ v, v ∈ includes ∧ v ∉ keys d.
Proof.
  split.
  - intros Hsub.
    destruct (decide (Exists (λ v, v ∉ keys d) includes)) as [He|He].
    + by apply Exists_exists in He.
    + destruct Hsub. intros v Hv.
      destruct (decide (v ∈ keys d)) as [|Hk]; [done|].
      destruct He. apply Exists_exists. eauto.
  - intros (v & Hv & Hk) Hsub. by apply Hk, Hsub.
Qed.

(** The number of entries of [includes] is the sum over two role lists
    that split its keys. *)
Lemma length_filter_split d (I P F : list string) :
  (∀ n, n ∈ keys d → n ∈ I ↔ n ∈ P ∨ n ∈ F) →
  (∀ n, n ∈ keys d → ¬ (n ∈ P ∧ n ∈ F)) →
  length (filter (λ ni : string * Z, ni.1 ∈ I) d)
  = length (filter (λ ni : string * Z, ni.1 ∈ P) d)
    + length (filter (λ ni : string * Z, ni.1 ∈ F) d).
Proof.
  unfold keys. induction d as [|[n i] d IH]; intros Hsplit Hdisj; [done|].
  pose proof (Hsplit n ltac:(by left)) as Hn.
  pose proof (Hdisj n ltac:(by left)) as Hn'.
  assert (length (filter (λ ni : string * Z, ni.1 ∈ I) d)
          = length (filter (λ ni : string * Z, ni.1 ∈ P) d)
            + length (filter (λ ni : string * Z, ni.1 ∈ F) d)) as IH'.
  { apply IH; intros m Hm; [apply Hsplit|apply Hdisj]; by right. }
  rewrite !filter_cons. cbn [fst].
  destruct (decide (n ∈ I)), (decide (n ∈ P)), (decide (n ∈ F));
    cbn [length]; rewrite ?IH'; try lia; tauto.
Qed.
End construction.

(** ** Construction of a variable index *)

Section variable_index.
Implicit Types (d : dict) (forcing diagnostic targets : list string).

Lemma elem_of_derive_prognostic forcing diagnostic targets d v :
  v ∈ derive_prognostic forcing diagnostic targets d
  ↔ v ∈ keys d ∧ (v ∉ forcing) ∧ (v ∉ diagnostic) ∧ (v ∉ targets).
Proof.
  unfold derive_prognostic, set.
  rewrite list_elem_of_filter, elem_of_list_to_set, !not_elem_of_app. tauto.
Qed.

Lemma derive_prognostic_keys forcing diagnostic targets d :
  derive_prognostic forcing diagnostic targets d ⊆ keys d.
Proof. intros v. rewrite elem_of_derive_prognostic. tauto. Qed.

(** The includes of the input index are keys exactly when the forcing
    names are. *)
Lemma input_includes_keys forcing diagnostic targets d :
  forcing ++ derive_prognostic forcing diagnostic targets d ⊆ keys d
  ↔ forcing ⊆ keys d.
Proof.
  split; intros Hsub v Hv.
  - apply Hsub, elem_of_app. by left.
  - apply elem_of_app in Hv as [Hv|Hv]; [by apply Hsub|].
    by eapply derive_prognostic_keys.
Qed.

Lemma input_includes_offending forcing diagnostic targets d :
  filter (λ var, var ∉ keys d)
    (forcing ++ derive_prognostic forcing diagnostic targets d)
  = filter (λ var, var ∉ keys d) forcing.
Proof.
  rewrite filter_app.
  assert (filter (λ var, var ∉ keys d)
            (derive_prognostic forcing diagnostic targets d) = []) as ->.
  { destruct (filter _ (derive_prognostic _ _ _ _)) as [|v l] eqn:Hf; [done|].
    assert (v ∈ v :: l) as Hv by left.
    rewrite <-Hf in Hv. apply list_elem_of_filter in Hv as [Hv Hin].
    destruct Hv. by eapply derive_prognostic_keys. }
  by rewrite app_nil_r.
Qed.

Lemma model_kwargs_known_future (a k : list string) :
  default [] (({[ "additional_model_variables" := a;
                  "known_future_variables" := k ]} : gmap string (list string))
              !! "known_future_variables") = k.
Proof. by rewrite lookup_insert_ne, lookup_singleton_eq. Qed.

Lemma model_kwargs_additional (a k : list string) :
  default [] (({[ "additional_model_variables" := a;
                  "known_future_variables" := k ]} : gmap string (list string))
              !! "additional_model_variables") = a.
Proof. by rewrite lookup_insert_eq. Qed.

Lemma data_init_inv diagnostic forcing targets d di :
  DataIndex.__init__ diagnostic forcing targets d = Ok di →
  let prognostic := derive_prognostic forcing diagnostic targets d in
  InputTensorIndex.__init__ prognostic diagnostic forcing targets
    (forcing ++ prognostic) d ∅ = Ok (BaseIndex.input di) ∧
  OutputTensorIndex.__init__ prognostic diagnostic forcing targets
    (diagnostic ++ targets) d ∅ = Ok (BaseIndex.output di) ∧
  DataIndex._prognostic di = prognostic.
Proof.
  unfold DataIndex.__init__.
  intros (input & Hin & (output & Hout & [= <-])%bind_Ok)%bind_Ok. done.
Qed.

Lemma model_init_inv diagnostic forcing targets d dout kf add mi :
  ModelIndex.__init__ diagnostic forcing targets d dout kf add = Ok mi →
  let prognostic := derive_prognostic forcing diagnostic targets d in
  InputTensorIndex.__init__ prognostic diagnostic forcing targets
    (forcing ++ prognostic) d
    {[ "additional_model_variables" := add;
       "known_future_variables" := kf ]} = Ok (BaseIndex.input mi) ∧
  OutputTensorIndex.__init__ prognostic diagnostic forcing targets
    (diagnostic ++ targets) dout ∅ = Ok (BaseIndex.output mi) ∧
  ModelIndex._prognostic mi = prognostic.
Proof.
  unfold ModelIndex.__init__.
  intros (input & Hin & (output & Hout & [= <-])%bind_Ok)%bind_Ok. done.
Qed.

(** The input length against [len(full)] when prognostic and forcing
    split the keys named by [includes]. *)
Lemma input_len_full prognostic diagnostic forcing targets includes d kw ti :
  InputTensorIndex.__init__ prognostic diagnostic forcing targets includes
    d kw = Ok ti →
  (∀ n, n ∈ keys d → n ∈ includes ↔ n ∈ prognostic ∨ n ∈ forcing) →
  (∀ n, n ∈ keys d → ¬ (n ∈ prognostic ∧ n ∈ forcing)) →
  InputTensorIndex.__len__ ti
  = (length (BaseTensorIndex.full ti)
     + 2 * length (InputTensorIndex._known_future_variables ti)
     + length (InputTensorIndex._additional_model_variables ti))%nat.
Proof.
  intros ([_ Hbase]%init_inv & _ & _)%input_init_inv Hsplit Hdisj.
  unfold InputTensorIndex.__len__. rewrite Hbase. simpl.
  rewrite !length_build_idx.
  by rewrite (length_filter_split d includes prognostic forcing).
Qed.

(** The input index of a variable index fails on a missing forcing name,
    and only then. *)
Lemma input_init_forcing_Raise forcing diagnostic targets d kw :
  ¬ forcing ⊆ keys d →
  InputTensorIndex.__init__
    (derive_prognostic forcing diagnostic targets d) diagnostic forcing
    targets (forcing ++ derive_prognostic forcing diagnostic targets d) d kw
  = Raise (AssertionError (filter (λ var, var ∉ keys d) forcing)).
Proof.
  intros Hf. unfold InputTensorIndex.__init__.
  rewrite init_Raise by by rewrite input_includes_keys.
  simpl. by rewrite input_includes_offending.
Qed.

(** The role lists of a variable index name every key of the input
    mapping between them, so the input index converts every position. *)
Lemma input_collected_finite forcing diagnostic targets d includes :
  Forall finite_position
    (collected d (derive_prognostic forcing diagnostic targets d) diagnostic
       forcing targets includes) →
  dict_finite d.
Proof.
  unfold collected, dict_finite. apply positions_cover.
  intros n Hn. rewrite !elem_of_app, elem_of_derive_prognostic.
  destruct (decide (n ∈ forcing)), (decide (n ∈ diagnostic)),
    (decide (n ∈ targets)); tauto.
Qed.

Lemma collected_finite prognostic diagnostic forcing targets includes d :
  dict_finite d →
  Forall finite_position
    (collected d prognostic diagnostic forcing targets includes).
Proof. apply positions_finite. Qed.

Lemma input_init_forcing_Ok forcing diagnostic targets d kw :
  forcing ⊆ keys d → dict_finite d →
  ∃ ti, InputTensorIndex.__init__
          (derive_prognostic forcing diagnostic targets d) diagnostic forcing
          targets (forcing ++ derive_prognostic forcing diagnostic targets d)
          d kw = Ok ti.
Proof.
  intros Hf Hfin. eexists. unfold InputTensorIndex.__init__.
  rewrite init_Ok; [done|by rewrite input_includes_keys|].
  by apply collected_finite.
Qed.

Lemma input_init_forcing_Overflow forcing diagnostic targets d kw :
  forcing ⊆ keys d → ¬ dict_finite d →
  InputTensorIndex.__init__
    (derive_prognostic forcing diagnostic targets d) diagnostic forcing
    targets (forcing ++ derive_prognostic forcing diagnostic targets d) d kw
  = Raise OverflowError.
Proof.
  intros Hf Hfin. unfold InputTensorIndex.__init__.
  rewrite init_Overflow; [done|by rewrite input_includes_keys|].
  intros Hc. apply Hfin. by eapply input_collected_finite.
Qed.

Lemma input_init_finite forcing diagnostic targets d kw ti :
  InputTensorIndex.__init__
    (derive_prognostic forcing diagnostic targets d) diagnostic forcing
    targets (forcing ++ derive_prognostic forcing diagnostic targets d) d kw
  = Ok ti →
  dict_finite d.
Proof.
  intros [Hbase _]%input_init_inv.
  eapply input_collected_finite, init_finite, Hbase.
Qed.

Lemma output_init_Raise prognostic diagnostic forcing targets includes d kw :
  ¬ includes ⊆ keys d →
  OutputTensorIndex.__init__ prognostic diagnostic forcing targets includes
    d kw
  = Raise (AssertionError (filter (λ var, var ∉ keys d) includes)).
Proof.
  intros Hsub. unfold OutputTensorIndex.__init__. by rewrite init_Raise.
Qed.

Lemma app_subseteq_keys (l k : list string) d :
  l ++ k ⊆ keys d ↔ l ⊆ keys d ∧ k ⊆ keys d.
Proof.
  split.
  - intros Hsub. split; intros v Hv; apply Hsub, elem_of_app; auto.
  - intros [Hl Hk] v [?|?]%elem_of_app; auto.
Qed.

Lemma output_init_Ok prognostic diagnostic forcing targets includes d kw :
  includes ⊆ keys d →
  Forall finite_position
    (collected d prognostic diagnostic forcing targets includes) →
  ∃ to, OutputTensorIndex.__init__ prognostic diagnostic forcing targets
          includes d kw = Ok to.
Proof.
  intros Hsub Hfin. eexists. unfold OutputTensorIndex.__init__.
  by rewrite init_Ok.
Qed.

(** When the two kinds of variable index are built. *)
Lemma model_init_Ok diagnostic forcing targets d dout kf add :
  forcing ⊆ keys d → diagnostic ⊆ keys dout → targets ⊆ keys dout →
  dict_finite d →
  Forall finite_position
    (collected dout (derive_prognostic forcing diagnostic targets d)
       diagnostic forcing targets (diagnostic ++ targets)) →
  ∃ mi, ModelIndex.__init__ diagnostic forcing targets d dout kf add = Ok mi.
Proof.
  intros Hf Hg Ht Hfin Hfin'.
  destruct (input_init_forcing_Ok forcing diagnostic targets d
              {[ "additional_model_variables" := add;
                 "known_future_variables" := kf ]} Hf Hfin) as [ti Hin].
  destruct (output_init_Ok
              (derive_prognostic forcing diagnostic targets d)
              diagnostic forcing targets (diagnostic ++ targets) dout ∅)
    as [to Hout]; [by apply app_subseteq_keys|done|].
  eexists. unfold ModelIndex.__init__. cbv zeta.
  rewrite Hin. simpl. rewrite Hout. simpl. reflexivity.
Qed.

Lemma data_init_Ok diagnostic forcing targets d :
  forcing ⊆ keys d → diagnostic ⊆ keys d → targets ⊆ keys d →
  dict_finite d →
  ∃ di, DataIndex.__init__ diagnostic forcing targets d = Ok di.
Proof.
  intros Hf Hg Ht Hfin.
  destruct (input_init_forcing_Ok forcing diagnostic targets d ∅ Hf Hfin)
    as [ti Hin].
  destruct (output_init_Ok
              (derive_prognostic forcing diagnostic targets d)
              diagnostic forcing targets (diagnostic ++ targets) d ∅)
    as [to Hout]; [by apply app_subseteq_keys|by apply collected_finite|].
  eexists. unfold DataIndex.__init__. cbv zeta.
  rewrite Hin. simpl. rewrite Hout. simpl. reflexivity.
Qed.
End variable_index.

(** ** Comparison *)

Section comparison.
Implicit Types (a b : tensor) (x y : Z).

Lemma isclose_refl x : torch.isclose x x = true.
Proof. unfold torch.isclose. by rewrite bool_decide_true. Qed.

Lemma isclose_small x y :
  small_position y → torch.isclose x y = bool_decide (x = y).
Proof.
  unfold small_position, torch.isclose. intros Hy.
  destruct (decide (x = y)) as [->|Hne].
  - by rewrite !(bool_decide_true (y = y)).
  - rewrite (bool_decide_false (x = y)) by done.
    rewrite bool_decide_false; [done|lia].
Qed.

Lemma broadcast_same_length a b :
  length a = length b → torch.broadcast a b = Ok (a, b).
Proof. intros Hlen. unfold torch.broadcast. by rewrite decide_True. Qed.

Lemma allclose_refl a : torch.allclose a a = Ok true.
Proof.
  unfold torch.allclose. rewrite broadcast_same_length by done. simpl.
  f_equal. induction a as [|x a IH]; [done|].
  simpl. by rewrite isclose_refl, IH.
Qed.

Lemma allclose_small a b :
  length a = length b → Forall small_position b →
  torch.allclose a b = Ok (bool_decide (a = b)).
Proof.
  intros Hlen Hb. unfold torch.allclose.
  rewrite broadcast_same_length by done. simpl. f_equal.
  revert b Hlen Hb. induction a as [|x a IH]; intros [|y b] Hlen Hb;
    try done.
  apply Forall_cons in Hb as [Hy Hb]. simpl.
  rewrite isclose_small, IH by (done || by injection Hlen).
  destruct (decide (x = y)) as [->|Hne].
  - rewrite bool_decide_true by done. simpl.
    apply bool_decide_ext. split; [by intros ->|by intros [= ->]].
  - rewrite (bool_decide_false (x = y)) by done. simpl.
    rewrite bool_decide_false; [done|]. by intros [= ? ?].
Qed.

Lemma eq_instance_refl (self other : BaseTensorIndex.t) :
  arrays self = arrays other →
  BaseTensorIndex.eq_instance self other = Ok true.
Proof.
  unfold arrays, BaseTensorIndex.eq_instance. intros [= -> -> -> -> ->].
  by rewrite !allclose_refl.
Qed.

Lemma eq_instance_small (self other : BaseTensorIndex.t) :
  length <$> arrays self = length <$> arrays other →
  Forall (Forall small_position) (arrays other) →
  BaseTensorIndex.eq_instance self other
  = Ok (bool_decide (arrays self = arrays other)).
Proof.
  unfold arrays. intros [= Hp Hg Hf Ht Hi] Hsmall.
  repeat (apply Forall_cons in Hsmall as [? Hsmall]).
  unfold BaseTensorIndex.eq_instance.
  rewrite !allclose_small by done. unfold and_then. simpl.
  repeat case_bool_decide; simpl; congruence.
Qed.
End comparison.

(** ** The [full] array

    The theorems on index arrays are stated for the base constructor; the
    Input and Output variants build their arrays through it
    ([input_init_inv], [output_init_inv]). *)

(** C1 -- for every TensorIndex constructed with an [includes] list whose
    names are all keys of [name_to_index], [full] equals the ascending
    sort of the positions of the names of [includes] that are mapping
    keys -- is not met by the code.  Over the mapping {"a": 16777217},
    with [includes] = ["a"], every name of [includes] is a key, the
    construction returns, and [full] is [16777216], where the ascending
    sort of the included positions is [16777217]: [torch.Tensor] makes a
    float32 tensor of the sorted positions, which has 24 significant bits,
    before [.to(torch.int)] makes the int tensor. *)
Theorem C1_full_rounds_position :
  let d : dict := [("a", 16777217%Z)] in
  dict_wf d ∧ dict_injective d ∧ NoDup ["a"] ∧ ["a"] ⊆ keys d ∧
  spec_index d ["a"] = [16777217%Z] ∧
  ∃ t, BaseTensorIndex.__init__ [] [] [] [] ["a"] d = Ok t ∧
       BaseTensorIndex.full t = [16777216%Z] ∧
       BaseTensorIndex.full t ≠ spec_index d ["a"].
Proof.
  simpl. do 4 (split; [by apply (bool_decide_unpack _); vm_compute|]).
  split; [vm_compute; reflexivity|].
  eexists. split; [vm_compute; reflexivity|].
  split; [vm_compute; reflexivity|]. vm_compute. discriminate.
Qed.



(** ** The role arrays *)

(** C5 -- in every validly constructed TensorIndex over an injective
    mapping, every position in the array of a role is the position of a
    name of the role list, no position of a name outside the role list
    appears in it, and the array is the ascending sort of the positions of
    the role's names among the keys -- is not met by the code.  Over the
    injective mapping {"a": 16777216, "b": 16777217} the prognostic array
    of the role list ["b"] is [16777216]: the position of "a", which is
    not in the role list, and of no name that is.  The float32 tensor that
    [torch.Tensor] builds on the way to the int tensor rounds 16777217. *)
Theorem C5_role_array_rounds_position :
  dict_wf wide_map ∧ dict_injective wide_map ∧
  ∃ t, BaseTensorIndex.__init__ ["b"] [] [] [] ["a"; "b"] wide_map = Ok t ∧
       BaseTensorIndex.prognostic t = [16777216%Z] ∧
       ("a" ∉ ["b"]) ∧ dict_get wide_map "a" = Some 16777216%Z ∧
       spec_index wide_map ["b"] = [16777217%Z] ∧
       ¬ role_index_ok wide_map ["b"] (BaseTensorIndex.prognostic t).
Proof.
  split; [by apply (bool_decide_unpack _); vm_compute|].
  split; [by apply (bool_decide_unpack _); vm_compute|].
  eexists. split; [vm_compute; reflexivity|].
  split_and!; try (vm_compute; reflexivity).
  - by apply (bool_decide_unpack _); vm_compute.
  - intros (_ & _ & Heq). vm_compute in Heq. discriminate.
Qed.

(** X19: in every validly constructed TensorIndex over an injective
    mapping with distinct keys whose positions the float32 tensor stores
    exactly (as it does every integer from -2^24 to 2^24), and for each of
    the four roles: every position in the role's array is the position of
    a name that is in the role list and a key, no position of a name
    outside the role list is in it, and the array is the ascending sort of
    the positions of the role's names among the keys. *)
Theorem role_arrays_exact
    prognostic diagnostic forcing targets includes (d : dict) t :
  dict_wf d → dict_exact d → dict_injective d →
  BaseTensorIndex.__init__ prognostic diagnostic forcing targets includes d
  = Ok t →
  role_index_ok d prognostic (BaseTensorIndex.prognostic t) ∧
  role_index_ok d diagnostic (BaseTensorIndex.diagnostic t) ∧
  role_index_ok d forcing (BaseTensorIndex.forcing t) ∧
  role_index_ok d targets (BaseTensorIndex.targets t).
Proof.
  intros Hwf Hexact Hinj [_ ->]%init_inv. simpl.
  split_and!; by apply build_idx_role_ok.
Qed.

Lemma role_arrays_exact_witness :
  ∃ t, BaseTensorIndex.__init__ ["t"; "u"; "v"] ["z"; "q"] ["sp"] []
         ["sp"; "t"; "u"; "v"] ex_map = Ok t ∧
       role_index_ok ex_map ["t"; "u"; "v"] (BaseTensorIndex.prognostic t) ∧
       role_index_ok ex_map ["z"; "q"] (BaseTensorIndex.diagnostic t) ∧
       role_index_ok ex_map ["sp"] (BaseTensorIndex.forcing t) ∧
       role_index_ok ex_map [] (BaseTensorIndex.targets t).
Proof.
  eexists. split; [vm_compute; reflexivity|].
  apply (role_arrays_exact ["t"; "u"; "v"] ["z"; "q"] ["sp"] []
           ["sp"; "t"; "u"; "v"] ex_map).
  - apply (bool_decide_unpack _). vm_compute. exact I.
  - apply (bool_decide_unpack _). vm_compute. exact I.
  - apply (bool_decide_unpack _). vm_compute. exact I.
  - vm_compute. reflexivity.
Defined.

(** ** Order and multiplicity of the input lists *)

(** C10 -- in every validly constructed TensorIndex over a mapping that
    assigns distinct positions to distinct names, each of the five index
    arrays is strictly ascending and duplicate-free -- is not met by the
    code.  Over the injective mapping {"a": 16777216, "b": 16777217},
    with [includes] = ["a", "b"], [full] is [16777216, 16777216]: the
    float32 tensor that [torch.Tensor] builds on the way to the int tensor
    rounds the two positions to the same value. *)
Theorem C10_full_repeats_position :
  dict_wf wide_map ∧ dict_injective wide_map ∧
  ∃ t, BaseTensorIndex.__init__ [] [] [] [] ["a"; "b"] wide_map = Ok t ∧
       BaseTensorIndex.full t = [16777216%Z; 16777216%Z] ∧
       ¬ strictly_ascending (BaseTensorIndex.full t).
Proof.
  split; [by apply (bool_decide_unpack _); vm_compute|].
  split; [by apply (bool_decide_unpack _); vm_compute|].
  eexists. split; [vm_compute; reflexivity|].
  split; [vm_compute; reflexivity|].
  intros [_ Hnd]. vm_compute in Hnd.
  apply NoDup_cons in Hnd as [Hin _]. apply Hin. left.
Qed.

(** X20: in every validly constructed TensorIndex, over any mapping, the
    arrays depend only on the set of names in each list: lists with the
    same names, in any order and multiplicity, are accepted as well and
    give the same five arrays.  And where the float32 tensor stores the
    positions of an injective mapping exactly, the five arrays are
    strictly ascending and duplicate-free, also when the lists repeat
    names. *)
Theorem arrays_depend_on_name_sets
    prognostic diagnostic forcing targets includes (d : dict) t :
  BaseTensorIndex.__init__ prognostic diagnostic forcing targets includes d
  = Ok t →
  (dict_exact d → dict_injective d →
   strictly_ascending (BaseTensorIndex.prognostic t) ∧
   strictly_ascending (BaseTensorIndex.diagnostic t) ∧
   strictly_ascending (BaseTensorIndex.forcing t) ∧
   strictly_ascending (BaseTensorIndex.targets t) ∧
   strictly_ascending (BaseTensorIndex.full t)) ∧
  (∀ prognostic' diagnostic' forcing' targets' includes',
     set prognostic = set prognostic' →
     set diagnostic = set diagnostic' →
     set forcing = set forcing' →
     set targets = set targets' →
     set includes = set includes' →
     ∃ t', BaseTensorIndex.__init__ prognostic' diagnostic' forcing' targets'
             includes' d = Ok t' ∧
           BaseTensorIndex.prognostic t' = BaseTensorIndex.prognostic t ∧
           BaseTensorIndex.diagnostic t' = BaseTensorIndex.diagnostic t ∧
           BaseTensorIndex.forcing t' = BaseTensorIndex.forcing t ∧
           BaseTensorIndex.targets t' = BaseTensorIndex.targets t ∧
           BaseTensorIndex.full t' = BaseTensorIndex.full t).
Proof.
  intros Hinit. pose proof (init_finite _ _ _ _ _ _ _ Hinit) as Hfin.
  apply init_inv in Hinit as [Hsub ->]. simpl. split.
  - intros Hexact Hinj. unfold strictly_ascending.
    split_and!; auto using build_idx_strict, StronglySorted_lt_NoDup.
  - intros p' g' f' t' i' Hp Hg Hf Ht Hi. eexists. split.
    + apply init_Ok.
      { intros n Hn. by apply Hsub, (set_eq_elem_of _ _ Hi). }
      apply Forall_collected in Hfin as (Hfp & Hfg & Hff & Hft & Hfi).
      apply Forall_collected.
      rewrite <-(positions_ext d prognostic p'),
        <-(positions_ext d diagnostic g'), <-(positions_ext d forcing f'),
        <-(positions_ext d targets t'), <-(positions_ext d includes i')
        by by apply set_eq_elem_of.
      done.
    + simpl. split_and!; symmetry; by apply build_idx_ext, set_eq_elem_of.
Qed.

Lemma arrays_depend_on_name_sets_witness :
  ∃ t, BaseTensorIndex.__init__ ["t"; "u"; "v"] ["z"] ["sp"] []
         ["sp"; "t"; "u"; "v"] ex_map = Ok t ∧
       strictly_ascending (BaseTensorIndex.full t) ∧
       ∃ t', BaseTensorIndex.__init__ ["v"; "t"; "u"; "t"] ["z"; "z"] ["sp"]
               [] ["v"; "u"; "t"; "sp"; "sp"] ex_map = Ok t' ∧
             BaseTensorIndex.full t' = BaseTensorIndex.full t.
Proof.
  eexists. split; [vm_compute; reflexivity|].
  destruct (arrays_depend_on_name_sets ["t"; "u"; "v"] ["z"] ["sp"] []
              ["sp"; "t"; "u"; "v"] ex_map _ eq_refl) as [Hstrict Hext].
  split.
  - apply Hstrict.
    + apply (bool_decide_unpack _). vm_compute. exact I.
    + apply (bool_decide_unpack _). vm_compute. exact I.
  - destruct (Hext ["v"; "t"; "u"; "t"] ["z"; "z"] ["sp"] []
                ["v"; "u"; "t"; "sp"; "sp"]) as (t' & Ht' & Heq);
      [by apply (bool_decide_unpack _); vm_compute..|].
    exists t'. split; [exact Ht'|]. apply Heq.
Defined.

(** ** The includes check *)



(** ** Lengths *)

(** C3: for every validly constructed Output TensorIndex, [length()]
    returns [len(full)]; for every validly constructed Input TensorIndex,
    [length()] returns [len(prognostic) + len(forcing) + 2*len(known_future)
    + len(additional)], where prognostic and forcing are the computed role
    index arrays and known_future/additional (empty when not passed)
    contribute only their cardinality. *)
Theorem C3_length
    prognostic diagnostic forcing targets includes (d : dict) kw :
  (∀ ti, InputTensorIndex.__init__ prognostic diagnostic forcing targets
           includes d kw = Ok ti →
         InputTensorIndex.__len__ ti
         = (length (BaseTensorIndex.prognostic ti)
            + length (BaseTensorIndex.forcing ti)
            + 2 * length (default [] (kw !! "known_future_variables"))
            + length (default [] (kw !! "additional_model_variables")))%nat ∧
         BaseTensorIndex._build_idx_from_list d prognostic
         = Ok (BaseTensorIndex.prognostic ti) ∧
         BaseTensorIndex._build_idx_from_list d forcing
         = Ok (BaseTensorIndex.forcing ti)) ∧
  (∀ to, OutputTensorIndex.__init__ prognostic diagnostic forcing targets
           includes d kw = Ok to →
         OutputTensorIndex.__len__ to = length (BaseTensorIndex.full to) ∧
         BaseTensorIndex._build_idx_from_list d includes
         = Ok (BaseTensorIndex.full to)).
Proof.
  split.
  - intros ti (Hbase & Hkf & Hadd)%input_init_inv.
    apply init_builds in Hbase as (Hp & _ & Hf & _).
    unfold InputTensorIndex.__len__. by rewrite Hkf, Hadd.
  - intros to (_ & _ & _ & _ & Hfull)%output_init_inv%init_builds.
    by unfold OutputTensorIndex.__len__.
Qed.

Lemma C3_length_witness :
  (∃ ti, InputTensorIndex.__init__ ["t"; "u"; "v"] ["z"] ["sp"] []
           ["sp"; "t"; "u"; "v"] ex_map
           {[ "known_future_variables" := ["sp"] ]} = Ok ti ∧
         InputTensorIndex.__len__ ti = 6%nat ∧
         length (BaseTensorIndex.full ti) = 4%nat) ∧
  (∃ to, OutputTensorIndex.__init__ ["t"; "u"; "v"] ["z"] ["sp"] [] ["z"]
           ex_map ∅ = Ok to ∧
         OutputTensorIndex.__len__ to = 1%nat).
Proof.
  split.
  - eexists. split; [vm_compute; reflexivity|]. split; [|reflexivity].
    etrans.
    + apply (C3_length ["t"; "u"; "v"] ["z"] ["sp"] [] ["sp"; "t"; "u"; "v"]
               ex_map {[ "known_future_variables" := ["sp"] ]}).
      vm_compute. reflexivity.
    + vm_compute. reflexivity.
  - eexists. split; [vm_compute; reflexivity|].
    etrans.
    + apply (C3_length ["t"; "u"; "v"] ["z"] ["sp"] [] ["z"] ex_map ∅).
      vm_compute. reflexivity.
    + vm_compute. reflexivity.
Defined.

(** ** The derived prognostic list *)

(** C2: for every DataIndex and ModelIndex construction, the derived
    prognostic list consists of exactly those keys of the (input) mapping
    not present in diagnostic ∪ forcing ∪ targets, in the mapping's key
    iteration order; it is disjoint from diagnostic ∪ forcing ∪ targets,
    and when diagnostic, forcing and targets are subsets of the mapping's
    keys, prognostic ∪ diagnostic ∪ forcing ∪ targets is the key set.
    Both constructions do return an index holding that list when the
    names they check are keys and the positions are in the range of a C
    double; the derived list is also the prognostic role list handed to
    the input and to the output TensorIndex. *)
Theorem C2_derived_prognostic diagnostic forcing targets (d : dict) :
  let prognostic := derive_prognostic forcing diagnostic targets d in
  (∀ di, DataIndex.__init__ diagnostic forcing targets d = Ok di →
         DataIndex._prognostic di = prognostic ∧
         BaseTensorIndex._build_idx_from_list d prognostic
         = Ok (BaseTensorIndex.prognostic (BaseIndex.input di)) ∧
         BaseTensorIndex._build_idx_from_list d prognostic
         = Ok (BaseTensorIndex.prognostic (BaseIndex.output di))) ∧
  (∀ dout kf add mi,
     ModelIndex.__init__ diagnostic forcing targets d dout kf add = Ok mi →
     ModelIndex._prognostic mi = prognostic ∧
     BaseTensorIndex._build_idx_from_list d prognostic
     = Ok (BaseTensorIndex.prognostic (BaseIndex.input mi)) ∧
     BaseTensorIndex._build_idx_from_list dout prognostic
     = Ok (BaseTensorIndex.prognostic (BaseIndex.output mi))) ∧
  (forcing ⊆ keys d → diagnostic ⊆ keys d → targets ⊆ keys d →
   dict_finite d →
   ∃ di, DataIndex.__init__ diagnostic forcing targets d = Ok di ∧
         DataIndex._prognostic di = prognostic) ∧
  (∀ dout kf add,
     forcing ⊆ keys d → diagnostic ⊆ keys dout → targets ⊆ keys dout →
     dict_finite d → dict_finite dout →
     ∃ mi, ModelIndex.__init__ diagnostic forcing targets d dout kf add
           = Ok mi ∧
           ModelIndex._prognostic mi = prognostic) ∧
  prognostic
  = filter (λ v, (v ∉ diagnostic) ∧ (v ∉ forcing) ∧ (v ∉ targets)) (keys d) ∧
  prognostic `sublist_of` keys d ∧
  set prognostic ## set diagnostic ∪ set forcing ∪ set targets ∧
  (diagnostic ⊆ keys d → forcing ⊆ keys d → targets ⊆ keys d →
   set prognostic ∪ set diagnostic ∪ set forcing ∪ set targets
   = set (keys d)).
Proof.
  intros prognostic. split_and!.
  - intros di (Hin & Hout & Hprog)%data_init_inv.
    apply input_init_inv in Hin as [(Hp & _)%init_builds _].
    apply output_init_inv, init_builds in Hout as (Hp' & _). done.
  - intros dout kf add mi (Hin & Hout & Hprog)%model_init_inv.
    apply input_init_inv in Hin as [(Hp & _)%init_builds _].
    apply output_init_inv, init_builds in Hout as (Hp' & _). done.
  - intros Hf Hg Ht Hfin.
    destruct (data_init_Ok diagnostic forcing targets d) as [di Hdi];
      [done..|].
    exists di. split; [done|]. by apply data_init_inv in Hdi as (_ & _ & ?).
  - intros dout kf add Hf Hg Ht Hfin Hfin'.
    destruct (model_init_Ok diagnostic forcing targets d dout kf add)
      as [mi Hmi]; [done..|by apply collected_finite|].
    exists mi. split; [done|]. by apply model_init_inv in Hmi as (_ & _ & ?).
  - apply list_filter_iff. intros v. unfold set.
    rewrite elem_of_list_to_set, !not_elem_of_app. tauto.
  - apply sublist_filter.
  - unfold set. intros v Hv%elem_of_list_to_set.
    apply elem_of_derive_prognostic in Hv as (_ & Hf & Hg & Ht).
    rewrite !elem_of_union, !elem_of_list_to_set. tauto.
  - intros Hg Hf Ht. apply set_eq. intros v. unfold set.
    rewrite !elem_of_union, !elem_of_list_to_set.
    unfold prognostic. rewrite elem_of_derive_prognostic.
    pose proof (Hg v). pose proof (Hf v). pose proof (Ht v).
    destruct (decide (v ∈ forcing)), (decide (v ∈ diagnostic)),
      (decide (v ∈ targets)); tauto.
Qed.

Lemma C2_derived_prognostic_witness :
  (∃ di, DataIndex.__init__ ["z"] ["sp"] [] ex_map = Ok di ∧
         DataIndex._prognostic di = ["t"; "u"; "v"] ∧
         BaseTensorIndex.prognostic (BaseIndex.input di) = [0; 1; 2]%Z) ∧
  (∃ mi, ModelIndex.__init__ ["a"] ["sp"] [] ex_map one_map ["sp"] []
         = Ok mi ∧
         ModelIndex._prognostic mi = ["t"; "u"; "v"; "z"] ∧
         BaseTensorIndex.prognostic (BaseIndex.input mi) = [0; 1; 2; 3]%Z ∧
         BaseTensorIndex.prognostic (BaseIndex.output mi) = []) ∧
  set ["t"; "u"; "v"] ∪ set ["z"] ∪ set ["sp"] ∪ set []
  = set (keys ex_map).
Proof.
  destruct (C2_derived_prognostic ["z"] ["sp"] [] ex_map)
    as (Hdata & _ & Hbuilt & _ & _ & _ & _ & Hcover).
  destruct (C2_derived_prognostic ["a"] ["sp"] [] ex_map)
    as (_ & Hmodel & _ & Hbuilt' & _).
  split_and!.
  - destruct Hbuilt as (di & Hdi & Hprog);
      [first [ apply forallb_fits_double; vm_compute; reflexivity
             | by apply (bool_decide_unpack _); vm_compute ]..|].
    exists di. split; [exact Hdi|].
    split; [etrans; [exact Hprog|vm_compute; reflexivity]|].
    destruct (Hdata di Hdi) as (_ & Hp & _).
    assert (Ok (BaseTensorIndex.prognostic (BaseIndex.input di))
            = Ok [0; 1; 2]%Z) as [= ->]; [|reflexivity].
    rewrite <-Hp. vm_compute. reflexivity.
  - destruct (Hbuilt' one_map ["sp"] []) as (mi & Hmi & Hprog);
      [first [ apply forallb_fits_double; vm_compute; reflexivity
             | by apply (bool_decide_unpack _); vm_compute ]..|].
    exists mi. split; [exact Hmi|].
    split; [etrans; [exact Hprog|vm_compute; reflexivity]|].
    destruct (Hmodel one_map ["sp"] [] mi Hmi) as (_ & Hp & Hp').
    split.
    + assert (Ok (BaseTensorIndex.prognostic (BaseIndex.input mi))
              = Ok [0; 1; 2; 3]%Z) as [= ->]; [|reflexivity].
      rewrite <-Hp. vm_compute. reflexivity.
    + assert (Ok (BaseTensorIndex.prognostic (BaseIndex.output mi))
              = Ok []) as [= ->]; [|reflexivity].
      rewrite <-Hp'. vm_compute. reflexivity.
  - apply Hcover; by apply (bool_decide_unpack _); vm_compute.
Defined.

(** ** Input length against [len(full)] *)




(** ** Missing names at the level of the variable index *)

(** C9, as amended: every DataIndex construction in which some name of the
    forcing list is not a key of [name_to_index] fails with the
    invalid-includes error of the input TensorIndex (whose includes is
    forcing + prognostic), although such a name is benign as a mere
    role-list member of a TensorIndex, which does with the forcing list
    what it does with the forcing list cut down to the keys; every
    ModelIndex construction in which some diagnostic or target name is not
    a key of the output mapping fails: at the output TensorIndex, with its
    invalid-includes error, whenever the input TensorIndex is constructed
    (as it is when every forcing name is a key of the input mapping and
    the positions of the input mapping are in the range of a C double),
    and otherwise already at the input TensorIndex, which is built first,
    with the error of the input TensorIndex. *)
Theorem C9_variable_index_missing_names
    diagnostic forcing targets (d dout : dict) kf add :
  let prognostic := derive_prognostic forcing diagnostic targets d in
  let kw : gmap string (list string) :=
    {[ "additional_model_variables" := add;
       "known_future_variables" := kf ]} in
  let input_error := AssertionError (filter (λ var, var ∉ keys d) forcing) in
  let output_error :=
    AssertionError (filter (λ var, var ∉ keys dout) (diagnostic ++ targets)) in
  ((∃ v, v ∈ forcing ∧ v ∉ keys d) →
   DataIndex.__init__ diagnostic forcing targets d = Raise input_error ∧
   InputTensorIndex.__init__ prognostic diagnostic forcing targets
     (forcing ++ prognostic) d ∅ = Raise input_error ∧
   (∀ includes kw',
      InputTensorIndex.__init__ prognostic diagnostic forcing targets
        includes d kw'
      = InputTensorIndex.__init__ prognostic diagnostic
          (filter (λ n, n ∈ keys d) forcing) targets includes d kw') ∧
   (dict_finite d →
    ∃ ti, InputTensorIndex.__init__ prognostic diagnostic forcing targets
            prognostic d ∅ = Ok ti)) ∧
  ((∃ v, v ∈ diagnostic ++ targets ∧ v ∉ keys dout) →
   OutputTensorIndex.__init__ prognostic diagnostic forcing targets
     (diagnostic ++ targets) dout ∅ = Raise output_error ∧
   (∀ ti, InputTensorIndex.__init__ prognostic diagnostic forcing targets
            (forcing ++ prognostic) d kw = Ok ti →
          ModelIndex.__init__ diagnostic forcing targets d dout kf add
          = Raise output_error) ∧
   (∀ e, InputTensorIndex.__init__ prognostic diagnostic forcing targets
           (forcing ++ prognostic) d kw = Raise e →
         ModelIndex.__init__ diagnostic forcing targets d dout kf add
         = Raise e) ∧
   (forcing ⊆ keys d → dict_finite d →
    (∃ ti, InputTensorIndex.__init__ prognostic diagnostic forcing targets
             (forcing ++ prognostic) d kw = Ok ti) ∧
    ModelIndex.__init__ diagnostic forcing targets d dout kf add
    = Raise output_error) ∧
   (¬ forcing ⊆ keys d →
    InputTensorIndex.__init__ prognostic diagnostic forcing targets
      (forcing ++ prognostic) d kw = Raise input_error ∧
    ModelIndex.__init__ diagnostic forcing targets d dout kf add
    = Raise input_error) ∧
   (forcing ⊆ keys d → ¬ dict_finite d →
    InputTensorIndex.__init__ prognostic diagnostic forcing targets
      (forcing ++ prognostic) d kw = Raise OverflowError ∧
    ModelIndex.__init__ diagnostic forcing targets d dout kf add
    = Raise OverflowError)).
Proof.
  intros prognostic kw input_error output_error.
  subst prognostic kw input_error output_error. split.
  - intros Hbad%not_subseteq_keys.
    pose proof (input_init_forcing_Raise forcing diagnostic targets d ∅ Hbad)
      as Hin.
    split_and!; [|done| |].
    + unfold DataIndex.__init__. cbv zeta. by rewrite Hin.
    + intros includes kw'. unfold InputTensorIndex.__init__.
      unfold BaseTensorIndex.__init__.
      by rewrite <-(build_idx_from_list_keys d forcing).
    + intros Hfin. eexists. unfold InputTensorIndex.__init__.
      rewrite init_Ok; [done|apply derive_prognostic_keys|].
      by apply collected_finite.
  - intros Hbad%not_subseteq_keys.
    assert (∀ ti, InputTensorIndex.__init__
                    (derive_prognostic forcing diagnostic targets d)
                    diagnostic forcing targets
                    (forcing ++ derive_prognostic forcing diagnostic targets d)
                    d {[ "additional_model_variables" := add;
                         "known_future_variables" := kf ]} = Ok ti →
                  ModelIndex.__init__ diagnostic forcing targets d dout kf add
                  = Raise (AssertionError
                             (filter (λ var, var ∉ keys dout)
                                (diagnostic ++ targets)))) as Hok.
    { intros ti Hin. unfold ModelIndex.__init__. cbv zeta. rewrite Hin. simpl.
      by rewrite output_init_Raise. }
    assert (∀ e, InputTensorIndex.__init__
                   (derive_prognostic forcing diagnostic targets d)
                   diagnostic forcing targets
                   (forcing ++ derive_prognostic forcing diagnostic targets d)
                   d {[ "additional_model_variables" := add;
                        "known_future_variables" := kf ]} = Raise e →
                 ModelIndex.__init__ diagnostic forcing targets d dout kf add
                 = Raise e) as Hraise.
    { intros e Hin. unfold ModelIndex.__init__. cbv zeta. by rewrite Hin. }
    split_and!; [by apply output_init_Raise|done|done| | |].
    + intros Hf Hfin.
      destruct (input_init_forcing_Ok forcing diagnostic targets d
                  {[ "additional_model_variables" := add;
                     "known_future_variables" := kf ]} Hf Hfin) as [ti Hin].
      split; [by eexists|by eapply Hok].
    + intros Hf.
      pose proof (input_init_forcing_Raise forcing diagnostic targets d
                    {[ "additional_model_variables" := add;
                       "known_future_variables" := kf ]} Hf) as Hin.
      split; [done|by apply Hraise].
    + intros Hf Hfin.
      pose proof (input_init_forcing_Overflow forcing diagnostic targets d
                    {[ "additional_model_variables" := add;
                       "known_future_variables" := kf ]} Hf Hfin) as Hin.
      split; [done|by apply Hraise].
Qed.

Lemma C9_variable_index_missing_names_witness :
  DataIndex.__init__ ["z"] ["sp"; "q"] [] ex_map
  = Raise (AssertionError ["q"]) ∧
  ModelIndex.__init__ ["z"; "q"] ["sp"] ["w"] ex_map ex_map [] []
  = Raise (AssertionError ["q"; "w"]) ∧
  ModelIndex.__init__ ["z"; "q"] ["sp"; "x"] ["w"] ex_map ex_map [] []
  = Raise (AssertionError ["x"]) ∧
  ModelIndex.__init__ ["q"] [] [] huge_map one_map [] []
  = Raise OverflowError.
Proof.
  split_and!.
  - apply (C9_variable_index_missing_names ["z"] ["sp"; "q"] [] ex_map
             ex_map [] []).
    exists "q". split; by apply (bool_decide_unpack _); vm_compute.
  - destruct (C9_variable_index_missing_names ["z"; "q"] ["sp"] ["w"]
                ex_map ex_map [] []) as (_ & Hmodel).
    destruct Hmodel as (_ & _ & _ & Hbuilt & _).
    + exists "q". split; by apply (bool_decide_unpack _); vm_compute.
    + apply Hbuilt.
      * by apply (bool_decide_unpack _); vm_compute.
      * apply forallb_fits_double. vm_compute. reflexivity.
  - destruct (C9_variable_index_missing_names ["z"; "q"] ["sp"; "x"] ["w"]
                ex_map ex_map [] []) as (_ & Hmodel).
    destruct Hmodel as (_ & _ & _ & _ & Hinput & _).
    + exists "q". split; by apply (bool_decide_unpack _); vm_compute.
    + apply Hinput. by apply (bool_decide_unpack _); vm_compute.
  - destruct (C9_variable_index_missing_names ["q"] [] [] huge_map one_map
                [] []) as (_ & Hmodel).
    destruct Hmodel as (_ & _ & _ & _ & _ & Hover).
    + exists "q". split; by apply (bool_decide_unpack _); vm_compute.
    + apply Hover.
      * by apply (bool_decide_unpack _); vm_compute.
      * intros Hfin%forallb_fits_double. vm_compute in Hfin. discriminate.
Defined.

(** C9 as stated fails when a forcing name is missing from the input
    mapping too: the ModelIndex construction stops at the input
    TensorIndex, with the forcing name in the error, and the output
    TensorIndex that would have reported "y" is never built. *)
Lemma C9_counterexample :
  "y" ∈ ["y"] ++ [] ∧ ("y" ∉ keys one_map) ∧
  InputTensorIndex.__init__ (derive_prognostic ["x"] ["y"] [] one_map)
    ["y"] ["x"] [] (["x"] ++ derive_prognostic ["x"] ["y"] [] one_map)
    one_map
    {[ "additional_model_variables" := []; "known_future_variables" := [] ]}
  = Raise (AssertionError ["x"]) ∧
  OutputTensorIndex.__init__ (derive_prognostic ["x"] ["y"] [] one_map)
    ["y"] ["x"] [] (["y"] ++ []) one_map ∅
  = Raise (AssertionError ["y"]) ∧
  ModelIndex.__init__ ["y"] ["x"] [] one_map one_map [] []
  = Raise (AssertionError ["x"]) ∧
  ModelIndex.__init__ ["y"] ["x"] [] one_map one_map [] []
  ≠ Raise (AssertionError ["y"]).
Proof.
  split_and!; try (vm_compute; reflexivity);
    try (by apply (bool_decide_unpack _); vm_compute).
  vm_compute. discriminate.
Qed.

(** ** Equality *)

(** C7 -- for every pair of validly constructed TensorIndex values, the
    equality operation returns true if and only if all five sequences are
    elementwise numerically equal -- is not met by the code, in two ways
    that come from handing arrays of different sizes to [torch.allclose].
    Over the mapping {"a": 0}, the index with no names compares equal to
    the index with prognostic and includes ["a"], whose prognostic and
    full arrays are [0] where those of the first are empty: [allclose]
    broadcasts the one-element array to size 0 and finds nothing that
    differs.  And over the scenario mapping, an index with two prognostic
    positions against one with three raises where it should return false:
    the sizes 2 and 3 do not broadcast. *)
Theorem C7_equality_of_unequal_sizes :
  (∃ t1 t2,
     BaseTensorIndex.__init__ [] [] [] [] [] one_map = Ok t1 ∧
     BaseTensorIndex.__init__ ["a"] [] [] [] ["a"] one_map = Ok t2 ∧
     arrays t1 = [[]; []; []; []; []] ∧
     arrays t2 = [[0%Z]; []; []; []; [0%Z]] ∧
     arrays t1 ≠ arrays t2 ∧
     BaseTensorIndex.__eq__ t1 (Instance t2) = Ok (Bool true) ∧
     BaseTensorIndex.__eq__ t2 (Instance t1) = Ok (Bool true)) ∧
  (∃ t1 t2,
     BaseTensorIndex.__init__ ["t"; "u"] [] [] [] [] ex_map = Ok t1 ∧
     BaseTensorIndex.__init__ ["t"; "u"; "v"] [] [] [] [] ex_map = Ok t2 ∧
     BaseTensorIndex.prognostic t1 = [0; 1]%Z ∧
     BaseTensorIndex.prognostic t2 = [0; 1; 2]%Z ∧
     BaseTensorIndex.__eq__ t1 (Instance t2) = Raise RuntimeError ∧
     BaseTensorIndex.__eq__ t2 (Instance t1) = Raise RuntimeError).
Proof.
  split; do 2 eexists; split_and!; try (vm_compute; reflexivity).
  vm_compute. discriminate.
Qed.

(** X21: the equality operation of a TensorIndex returns true whenever
    all five sequences are elementwise equal; when the five pairs of
    sequences have equal lengths and the positions of the right operand
    are below 10^5 in absolute value, it returns true only if all five
    sequences are elementwise equal (and false otherwise).  Comparing a
    TensorIndex or a VariableIndex against a value of an incompatible type
    returns NotImplemented instead of raising. *)
Theorem tensor_index_equality (self other : BaseTensorIndex.t) :
  (arrays self = arrays other →
   BaseTensorIndex.__eq__ self (Instance other) = Ok (Bool true)) ∧
  (length <$> arrays self = length <$> arrays other →
   Forall (Forall small_position) (arrays other) →
   BaseTensorIndex.__eq__ self (Instance other)
   = Ok (Bool (bool_decide (arrays self = arrays other))) ∧
   (BaseTensorIndex.__eq__ self (Instance other) = Ok (Bool true)
    ↔ arrays self = arrays other)) ∧
  (∀ v, BaseTensorIndex.__eq__ self (Unrelated v) = Ok NotImplemented) ∧
  (∀ (index : BaseIndex.t) v,
     BaseIndex.__eq__ index (Unrelated v) = Ok NotImplemented).
Proof.
  split_and!; [| |done..].
  - intros Heq. unfold BaseTensorIndex.__eq__.
    by rewrite eq_instance_refl.
  - intros Hlen Hsmall. unfold BaseTensorIndex.__eq__.
    rewrite eq_instance_small by done. simpl. split; [done|].
    case_bool_decide; split; congruence.
Qed.

Lemma tensor_index_equality_witness :
  BaseTensorIndex.__init__ ["t"; "u"; "v"] ["z"] ["sp"] []
    ["sp"; "t"; "u"; "v"] ex_map = Ok ex_index ∧
  BaseTensorIndex.__init__ ["t"; "u"; "z"] ["v"] ["sp"] []
    ["sp"; "t"; "u"; "v"] ex_map = Ok ex_index' ∧
  BaseTensorIndex.__eq__ ex_index (Instance ex_index) = Ok (Bool true) ∧
  BaseTensorIndex.__eq__ ex_index (Instance ex_index') = Ok (Bool false).
Proof.
  split_and!; [vm_compute; reflexivity..| |].
  - apply (proj1 (tensor_index_equality ex_index ex_index)). reflexivity.
  - assert (bool_decide (arrays ex_index = arrays ex_index') = false) as <-
      by (vm_compute; reflexivity).
    apply (proj1 (proj2 (tensor_index_equality ex_index ex_index'))).
    + vm_compute. reflexivity.
    + repeat constructor; unfold small_position; simpl; lia.
Defined.

(** The comparison is the tolerant one of [allclose]: at large positions
    neighbouring values are within its relative tolerance. *)
Lemma eq_within_tolerance :
  ∃ t1 t2,
    BaseTensorIndex.__init__ ["a"] [] [] [] ["a"] far_map = Ok t1 ∧
    BaseTensorIndex.__init__ ["a"] [] [] [] ["a"] far_map' = Ok t2 ∧
    BaseTensorIndex.full t1 = [1000000%Z] ∧
    BaseTensorIndex.full t2 = [1000001%Z] ∧
    BaseTensorIndex.__eq__ t1 (Instance t2) = Ok (Bool true).
Proof. do 2 eexists; split_and!; vm_compute; reflexivity. Qed.

(** ** Export *)

(** C8: for every VariableIndex, the dict-export operation returns
    {"input": {...}, "output": {...}} where each inner dict has exactly the
    five keys prognostic, diagnostic, forcing, targets, full, and each
    exported sequence is the corresponding field of the respective
    TensorIndex. *)
Theorem C8_todict (index : BaseIndex.t) :
  let five : gset string :=
    {[ "prognostic"; "diagnostic"; "forcing"; "targets"; "full" ]} in
  let exports (t : BaseTensorIndex.t) (inner : gmap string tensor) :=
    dom inner = five ∧
    inner !! "prognostic" = Some (BaseTensorIndex.prognostic t) ∧
    inner !! "diagnostic" = Some (BaseTensorIndex.diagnostic t) ∧
    inner !! "forcing" = Some (BaseTensorIndex.forcing t) ∧
    inner !! "targets" = Some (BaseTensorIndex.targets t) ∧
    inner !! "full" = Some (BaseTensorIndex.full t) in
  dom (BaseIndex.todict index) = {[ "input"; "output" ]} ∧
  (∃ inner, BaseIndex.todict index !! "input" = Some inner ∧
            exports (BaseIndex.input index) inner) ∧
  (∃ inner, BaseIndex.todict index !! "output" = Some inner ∧
            exports (BaseIndex.output index) inner).
Proof.
  intros five exports.
  assert (∀ t, exports t (BaseTensorIndex.todict t)) as Hexp.
  { intros t. unfold exports, BaseTensorIndex.todict. split.
    - rewrite !dom_insert_L, dom_singleton_L. unfold five. set_solver.
    - split_and!; by simplify_map_eq. }
  unfold BaseIndex.todict. split_and!.
  - rewrite dom_insert_L, dom_singleton_L. set_solver.
  - eexists. split; [by simplify_map_eq|apply Hexp].
  - eexists. split; [by simplify_map_eq|apply Hexp].
Qed.

(** * Further properties *)

(** ** When a variable index can be built *)

Section index_construction.
Implicit Types (d dout : dict) (forcing diagnostic targets : list string).

Lemma input_init_forcing_inv forcing diagnostic targets d kw ti :
  InputTensorIndex.__init__
    (derive_prognostic forcing diagnostic targets d) diagnostic forcing
    targets (forcing ++ derive_prognostic forcing diagnostic targets d) d kw
  = Ok ti →
  forcing ⊆ keys d.
Proof.
  intros Hin. destruct (decide (forcing ⊆ keys d)) as [|Hf]; [done|].
  by rewrite input_init_forcing_Raise in Hin.
Qed.

Lemma output_init_subseteq prognostic diagnostic forcing targets includes
    d kw to :
  OutputTensorIndex.__init__ prognostic diagnostic forcing targets includes
    d kw = Ok to →
  includes ⊆ keys d.
Proof. by intros [? _]%output_init_inv%init_inv. Qed.

Lemma data_init_Ok_iff diagnostic forcing targets d :
  (∃ di, DataIndex.__init__ diagnostic forcing targets d = Ok di)
  ↔ forcing ⊆ keys d ∧ diagnostic ⊆ keys d ∧ targets ⊆ keys d ∧
    dict_finite d.
Proof.
  split.
  - intros [di (Hin & Hout & _)%data_init_inv].
    pose proof (input_init_finite _ _ _ _ _ _ Hin) as Hfin.
    apply input_init_forcing_inv in Hin.
    apply output_init_subseteq, app_subseteq_keys in Hout. tauto.
  - intros (Hf & Hg & Ht & Hfin). by apply data_init_Ok.
Qed.

(** The names whose positions the output index of a ModelIndex converts
    are the keys of the input mapping and the three given role lists. *)
Lemma output_collected forcing diagnostic targets d dout :
  collected dout (derive_prognostic forcing diagnostic targets d) diagnostic
    forcing targets (diagnostic ++ targets)
  = positions dout (keys d ++ diagnostic ++ forcing ++ targets).
Proof.
  unfold collected. apply positions_ext. intros n.
  rewrite !elem_of_app, elem_of_derive_prognostic.
  destruct (decide (n ∈ forcing)), (decide (n ∈ diagnostic)),
    (decide (n ∈ targets)); tauto.
Qed.
End index_construction.

(** X1: a DataIndex can be built exactly when every forcing, diagnostic
    and target name is a key of the mapping and every position of the
    mapping is in the range of a C double; when the forcing names are keys
    and the positions in that range, and some diagnostic or target name is
    not a key, the error is the output index's and lists the diagnostic
    and target names that are missing. *)
Theorem X1_data_index_built_iff diagnostic forcing targets (d : dict) :
  ((∃ di, DataIndex.__init__ diagnostic forcing targets d = Ok di)
   ↔ forcing ⊆ keys d ∧ diagnostic ⊆ keys d ∧ targets ⊆ keys d ∧
     dict_finite d) ∧
  (forcing ⊆ keys d → dict_finite d → ¬ diagnostic ++ targets ⊆ keys d →
   DataIndex.__init__ diagnostic forcing targets d
   = Raise (AssertionError
              (filter (λ var, var ∉ keys d) (diagnostic ++ targets)))) ∧
  (forcing ⊆ keys d → ¬ dict_finite d →
   DataIndex.__init__ diagnostic forcing targets d = Raise OverflowError).
Proof.
  split; [apply data_init_Ok_iff|]. split.
  - intros Hf Hfin Hbad.
    destruct (input_init_forcing_Ok forcing diagnostic targets d ∅ Hf Hfin)
      as [ti Hin].
    unfold DataIndex.__init__. cbv zeta. rewrite Hin. simpl.
    by rewrite output_init_Raise.
  - intros Hf Hfin. unfold DataIndex.__init__. cbv zeta.
    by rewrite input_init_forcing_Overflow.
Qed.

Lemma X1_data_index_built_iff_witness :
  (∃ di, DataIndex.__init__ ["z"] ["sp"] [] ex_map = Ok di) ∧
  DataIndex.__init__ ["z"; "q"] ["sp"] ["w"] ex_map
  = Raise (AssertionError ["q"; "w"]) ∧
  DataIndex.__init__ [] [] [] huge_map = Raise OverflowError.
Proof.
  split_and!.
  - apply (proj1 (X1_data_index_built_iff ["z"] ["sp"] [] ex_map)).
    split_and!;
      first [ apply forallb_fits_double; vm_compute; reflexivity
            | by apply (bool_decide_unpack _); vm_compute ].
  - apply (proj1 (proj2 (X1_data_index_built_iff ["z"; "q"] ["sp"] ["w"]
                           ex_map))).
    + by apply (bool_decide_unpack _); vm_compute.
    + apply forallb_fits_double. vm_compute. reflexivity.
    + by apply (bool_decide_unpack _); vm_compute.
  - apply (proj2 (proj2 (X1_data_index_built_iff [] [] [] huge_map))).
    + by apply (bool_decide_unpack _); vm_compute.
    + intros Hfin%forallb_fits_double. vm_compute in Hfin. discriminate.
Defined.

(** X2: a ModelIndex can be built exactly when every forcing name is a key
    of the input mapping, every diagnostic and target name is a key of the
    output mapping, and the positions converted are in the range of a C
    double: every position of the input mapping, and the positions the
    output mapping gives to keys of the input mapping and to diagnostic,
    forcing and target names.  Diagnostic and target names need not be
    keys of the input mapping, nor forcing names keys of the output
    mapping. *)
Theorem X2_model_index_built_iff
    diagnostic forcing targets (d dout : dict) kf add :
  (∃ mi, ModelIndex.__init__ diagnostic forcing targets d dout kf add
         = Ok mi)
  ↔ forcing ⊆ keys d ∧ diagnostic ⊆ keys dout ∧ targets ⊆ keys dout ∧
    dict_finite d ∧
    Forall finite_position
      (positions dout (keys d ++ diagnostic ++ forcing ++ targets)).
Proof.
  rewrite <-output_collected. split.
  - intros [mi (Hin & Hout & _)%model_init_inv].
    pose proof (input_init_finite _ _ _ _ _ _ Hin) as Hfin.
    apply input_init_forcing_inv in Hin.
    pose proof Hout as Hfin'%output_init_inv%init_finite.
    apply output_init_subseteq, app_subseteq_keys in Hout. tauto.
  - intros (Hf & Hg & Ht & Hfin & Hfin'). by apply model_init_Ok.
Qed.

Lemma X2_model_index_built_iff_witness :
  ∃ mi, ModelIndex.__init__ ["a"] ["sp"] [] ex_map one_map ["sp"] []
        = Ok mi.
Proof.
  apply (proj2 (X2_model_index_built_iff ["a"] ["sp"] [] ex_map one_map
                  ["sp"] [])).
  split_and!;
    first [ apply forallb_fits_double; vm_compute; reflexivity
          | by apply (bool_decide_unpack _); vm_compute ].
Defined.

(** ** How many positions an array holds *)

Section array_lengths.
Implicit Types (d : dict) (R : list string).

Lemma length_build_idx_size d R :
  dict_wf d →
  length (index_array d R)
  = size (set R ∩ set (keys d)).
Proof.
  intros Hwf. rewrite length_build_idx.
  rewrite <-(length_fmap fst).
  rewrite <-(size_list_to_set (C:=gset string)); first last.
  { eapply sublist_NoDup; [exact Hwf|]. apply fmap_sublist, sublist_filter. }
  f_equal. apply set_eq. intros n. unfold set, keys.
  rewrite elem_of_intersection, !elem_of_list_to_set, list_elem_of_fmap.
  split.
  - intros [[n' i] [-> [? ?]%list_elem_of_filter]]. split; [done|].
    by apply (list_elem_of_fmap_2 fst _ (n', i)).
  - intros [? [[n' i] [-> ?]]%list_elem_of_fmap]. exists (n', i).
    by rewrite list_elem_of_filter.
Qed.

Lemma size_set_subseteq_keys (includes : list string) d :
  includes ⊆ keys d → set includes ∩ set (keys d) = set includes.
Proof.
  intros Hsub. apply set_eq. intros n. unfold set.
  rewrite elem_of_intersection, !elem_of_list_to_set. split; [tauto|].
  intros Hn. split; [done|by apply Hsub].
Qed.
End array_lengths.

(** X3: in every validly constructed TensorIndex over a mapping with
    distinct keys, each role array holds as many positions as there are
    distinct names of the role list among the keys, and [len(full)] is the
    number of distinct names of [includes]; so for an [includes] without
    duplicates the base and output length is [len(includes)], whatever the
    positions are. *)
Theorem X3_array_lengths
    prognostic diagnostic forcing targets includes (d : dict) t :
  dict_wf d →
  BaseTensorIndex.__init__ prognostic diagnostic forcing targets includes d
  = Ok t →
  length (BaseTensorIndex.prognostic t) = size (set prognostic ∩ set (keys d)) ∧
  length (BaseTensorIndex.diagnostic t) = size (set diagnostic ∩ set (keys d)) ∧
  length (BaseTensorIndex.forcing t) = size (set forcing ∩ set (keys d)) ∧
  length (BaseTensorIndex.targets t) = size (set targets ∩ set (keys d)) ∧
  BaseTensorIndex.__len__ t = size (set includes) ∧
  OutputTensorIndex.__len__ (OutputTensorIndex.mk t) = size (set includes) ∧
  (NoDup includes → BaseTensorIndex.__len__ t = length includes).
Proof.
  intros Hwf [Hsub ->]%init_inv.
  unfold BaseTensorIndex.__len__, OutputTensorIndex.__len__. simpl.
  rewrite !length_build_idx_size by done.
  rewrite (size_set_subseteq_keys includes d) by done.
  split_and!; try done.
  intros Hnd. unfold set. by rewrite size_list_to_set.
Qed.

Lemma X3_array_lengths_witness :
  ∃ t, BaseTensorIndex.__init__ ["t"; "u"; "t"] ["z"; "q"] ["sp"] []
         ["sp"; "t"; "u"; "v"] ex_map = Ok t ∧
       length (BaseTensorIndex.prognostic t) = 2%nat ∧
       length (BaseTensorIndex.diagnostic t) = 1%nat ∧
       BaseTensorIndex.__len__ t = length ["sp"; "t"; "u"; "v"].
Proof.
  eexists. split; [vm_compute; reflexivity|].
  destruct (X3_array_lengths ["t"; "u"; "t"] ["z"; "q"] ["sp"] []
              ["sp"; "t"; "u"; "v"] ex_map _
              ltac:(by apply (bool_decide_unpack _); vm_compute) eq_refl)
    as (Hp & Hg & _ & _ & _ & _ & Hlen).
  split_and!.
  - etrans; [exact Hp|]. vm_compute. reflexivity.
  - etrans; [exact Hg|]. vm_compute. reflexivity.
  - apply Hlen. by apply (bool_decide_unpack _); vm_compute.
Defined.

(** ** [full] against the role arrays *)

Section full_and_roles.
Implicit Types (d : dict) (R : list string) (x : Z).

Lemma elem_of_build_idx d R x :
  x ∈ index_array d R
  ↔ ∃ n p, n ∈ R ∧ (n, p) ∈ d ∧ x = torch.int32 (torch.float32 p).
Proof.
  unfold index_array, torch.to_int.
  rewrite <-list_fmap_compose, list_elem_of_fmap.
  split.
  - intros (p & -> & Hp). rewrite elem_of_sorted, elem_of_positions in Hp.
    destruct Hp as (n & ? & ?). by exists n, p.
  - intros (n & p & ? & ? & ->). exists p. split; [done|].
    rewrite elem_of_sorted, elem_of_positions. eauto.
Qed.

Lemma elem_of_build_idx_app d R R' x :
  x ∈ index_array d (R ++ R')
  ↔ x ∈ index_array d R
    ∨ x ∈ index_array d R'.
Proof.
  rewrite !elem_of_build_idx. split.
  - intros (n & p & [?|?]%elem_of_app & ? & ?); [left|right]; eauto.
  - intros [(n & p & ? & ? & ?)|(n & p & ? & ? & ?)];
      exists n, p; rewrite elem_of_app; eauto.
Qed.

Lemma length_filter_cover (l : list (string * Z)) (A B C : string → Prop)
    `{!∀ n, Decision (A n)} `{!∀ n, Decision (B n)}
    `{!∀ n, Decision (C n)} :
  (∀ n, n ∈ l.*1 → A n ∨ B n) →
  (∀ n, n ∈ l.*1 → C n ↔ A n ∧ B n) →
  (length (filter (λ ni, A ni.1) l) + length (filter (λ ni, B ni.1) l)
   = length l + length (filter C l.*1))%nat.
Proof.
  induction l as [|[n i] l IH]; intros Hcover Hboth; [done|]. csimpl in *.
  pose proof (Hcover n ltac:(left)) as Hn.
  pose proof (Hboth n ltac:(left)) as Hn'.
  assert (length (filter (λ ni, A ni.1) l)
          + length (filter (λ ni, B ni.1) l)
          = length l + length (filter C l.*1))%nat as IH'.
  { apply IH; intros m Hm; [apply Hcover|apply Hboth]; by right. }
  rewrite !filter_cons. cbn [fst].
  destruct (decide (A n)), (decide (B n)), (decide (C n));
    cbn [length]; try lia; tauto.
Qed.

(** The arrays of the two indices of a variable index. *)
Lemma variable_index_arrays forcing diagnostic targets d dout kw kw'
    (ti : InputTensorIndex.t) (to : OutputTensorIndex.t) :
  let prognostic := derive_prognostic forcing diagnostic targets d in
  InputTensorIndex.__init__ prognostic diagnostic forcing targets
    (forcing ++ prognostic) d kw = Ok ti →
  OutputTensorIndex.__init__ prognostic diagnostic forcing targets
    (diagnostic ++ targets) dout kw' = Ok to →
  arrays ti
  = index_array d
      <$> [prognostic; diagnostic; forcing; targets; forcing ++ prognostic] ∧
  arrays to
  = index_array dout
      <$> [prognostic; diagnostic; forcing; targets; diagnostic ++ targets].
Proof.
  intros prognostic ([_ Hti]%init_inv & _)%input_init_inv
    [_ Hto]%output_init_inv%init_inv.
  unfold arrays. by rewrite Hti, Hto.
Qed.

Lemma elem_of_build_idx_exact d R x :
  dict_exact d →
  x ∈ index_array d R ↔ ∃ n, n ∈ R ∧ (n, x) ∈ d.
Proof.
  intros Hd.
  by rewrite build_idx_exact, elem_of_sorted, elem_of_positions.
Qed.
End full_and_roles.

(** X4: in every DataIndex and every ModelIndex, the input index's [full]
    holds exactly the entries of its forcing and prognostic arrays, and
    the output index's [full] exactly the entries of its diagnostic and
    targets arrays -- for any positions, also those the float32 tensor
    rounds. *)
Theorem X4_full_is_union diagnostic forcing targets (d dout : dict) kf add :
  (∀ di, DataIndex.__init__ diagnostic forcing targets d = Ok di →
         full_is_union di) ∧
  (∀ mi, ModelIndex.__init__ diagnostic forcing targets d dout kf add
         = Ok mi →
         full_is_union mi).
Proof.
  assert (∀ dout kw kw' ti to,
            InputTensorIndex.__init__
              (derive_prognostic forcing diagnostic targets d) diagnostic
              forcing targets
              (forcing ++ derive_prognostic forcing diagnostic targets d)
              d kw = Ok ti →
            OutputTensorIndex.__init__
              (derive_prognostic forcing diagnostic targets d) diagnostic
              forcing targets (diagnostic ++ targets) dout kw' = Ok to →
            full_is_union (BaseIndex.mk ti to)) as Hunion.
  { intros dout' kw kw' ti to Hin Hout.
    destruct (variable_index_arrays _ _ _ _ _ _ _ _ _ Hin Hout)
      as [[= Hp Hg Hf Ht Hfull] [= Hp' Hg' Hf' Ht' Hfull']].
    split; intros x; simpl.
    - rewrite Hfull, Hf, Hp. apply elem_of_build_idx_app.
    - rewrite Hfull', Hg', Ht'. apply elem_of_build_idx_app. }
  split.
  - intros di Hinit. pose proof Hinit as (Hin & Hout & _)%data_init_inv.
    by destruct di as [[ti to] ?]; eapply Hunion.
  - intros mi Hinit. pose proof Hinit as (Hin & Hout & _)%model_init_inv.
    by destruct mi as [[ti to] ?]; eapply Hunion.
Qed.

Lemma X4_full_is_union_witness :
  ∃ mi, ModelIndex.__init__ ["z"] ["sp"] [] ex_map ex_map ["sp"] [] = Ok mi ∧
        full_is_union mi.
Proof.
  eexists. split; [vm_compute; reflexivity|].
  apply (proj2 (X4_full_is_union ["z"] ["sp"] [] ex_map ex_map ["sp"] [])).
  vm_compute. reflexivity.
Defined.

(** X5: in every DataIndex the lengths of the two [full] arrays add up to
    the number of keys of the mapping plus the number of keys listed both
    as forcing and as diagnostic or target; when no forcing name is
    diagnostic or target, input and output [full] together are as long as
    the mapping. *)
Theorem X5_data_index_full_lengths diagnostic forcing targets (d : dict) di :
  DataIndex.__init__ diagnostic forcing targets d = Ok di →
  (length (BaseTensorIndex.full (BaseIndex.input di))
   + length (BaseTensorIndex.full (BaseIndex.output di))
   = length (keys d)
     + length (filter (λ n, n ∈ forcing ∧ n ∈ diagnostic ++ targets)
                 (keys d)))%nat ∧
  ((∀ n, n ∈ forcing → n ∉ diagnostic ++ targets) →
   (length (BaseTensorIndex.full (BaseIndex.input di))
    + length (BaseTensorIndex.full (BaseIndex.output di))
    = length (keys d))%nat).
Proof.
  intros (Hin & Hout & _)%data_init_inv.
  destruct (variable_index_arrays _ _ _ _ _ _ _ _ _ Hin Hout)
    as [[= _ _ _ _ Hfull] [= _ _ _ _ Hfull']].
  assert (length (BaseTensorIndex.full (BaseIndex.input di))
          + length (BaseTensorIndex.full (BaseIndex.output di))
          = length (keys d)
            + length (filter (λ n, n ∈ forcing ∧ n ∈ diagnostic ++ targets)
                        (keys d)))%nat as Hsum.
  { rewrite Hfull, Hfull', !length_build_idx. unfold keys.
    rewrite length_fmap.
    pose proof (length_filter_cover d
             (λ n, n ∈ forcing ++ derive_prognostic forcing diagnostic
                                     targets d)
             (λ n, n ∈ diagnostic ++ targets)
             (λ n, n ∈ forcing ∧ n ∈ diagnostic ++ targets)) as Hcount.
    apply Hcount.
    - intros n Hn. rewrite !elem_of_app, elem_of_derive_prognostic.
      unfold keys.
      destruct (decide (n ∈ forcing)), (decide (n ∈ diagnostic)),
        (decide (n ∈ targets)); tauto.
    - intros n Hn. rewrite !elem_of_app, elem_of_derive_prognostic.
      tauto. }
  split; [done|]. intros Hdisj. rewrite Hsum.
  assert (filter (λ n, n ∈ forcing ∧ n ∈ diagnostic ++ targets) (keys d)
          = []) as ->; [|simpl; lia].
  destruct (filter _ (keys d)) as [|n l] eqn:Hfilter; [done|].
  assert (n ∈ n :: l) as Hn by left.
  rewrite <-Hfilter in Hn. apply list_elem_of_filter in Hn as [[Hf Hgt] _].
  by destruct (Hdisj n Hf).
Qed.

Lemma X5_data_index_full_lengths_witness :
  ∃ di, DataIndex.__init__ ["z"] ["sp"] [] ex_map = Ok di ∧
        (length (BaseTensorIndex.full (BaseIndex.input di))
         + length (BaseTensorIndex.full (BaseIndex.output di))
         = length (keys ex_map))%nat.
Proof.
  eexists. split; [vm_compute; reflexivity|].
  apply (X5_data_index_full_lengths ["z"] ["sp"] [] ex_map).
  - vm_compute. reflexivity.
  - intros n Hn. revert n Hn. apply Forall_forall.
    by apply (bool_decide_unpack _); vm_compute.
Defined.

(** X6: in every DataIndex over an injective mapping whose positions the
    float32 tensor stores exactly, each position of the mapping is in the
    input [full] or in the output [full]; the two share exactly the
    positions of the names listed both as forcing and as diagnostic or
    target; and no prognostic position is in the output [full]. *)
Theorem X6_data_index_cover_overlap diagnostic forcing targets (d : dict) di :
  dict_exact d → dict_injective d →
  DataIndex.__init__ diagnostic forcing targets d = Ok di →
  (∀ n p, (n, p) ∈ items d →
          p ∈ BaseTensorIndex.full (BaseIndex.input di)
          ∨ p ∈ BaseTensorIndex.full (BaseIndex.output di)) ∧
  (∀ p, p ∈ BaseTensorIndex.full (BaseIndex.input di)
        ∧ p ∈ BaseTensorIndex.full (BaseIndex.output di)
        ↔ ∃ n, n ∈ forcing ∧ n ∈ diagnostic ++ targets ∧ (n, p) ∈ items d) ∧
  (∀ p, p ∈ BaseTensorIndex.prognostic (BaseIndex.input di) →
        p ∉ BaseTensorIndex.full (BaseIndex.output di)).
Proof.
  intros Hexact Hinj (Hin & Hout & _)%data_init_inv. unfold items.
  destruct (variable_index_arrays _ _ _ _ _ _ _ _ _ Hin Hout)
    as [[= Hp _ _ _ Hfull] [= _ _ _ _ Hfull']].
  rewrite Hp, Hfull, Hfull'. split_and!.
  - intros n p Hnp. rewrite !elem_of_build_idx_exact by done.
    assert (n ∈ keys d) as Hn by by apply (list_elem_of_fmap_2 fst _ (n, p)).
    destruct (decide (n ∈ diagnostic ++ targets)) as [|Hgt]; [right; eauto|].
    left. exists n. split; [|done].
    rewrite elem_of_app, elem_of_derive_prognostic.
    rewrite not_elem_of_app in Hgt.
    destruct (decide (n ∈ forcing)); tauto.
  - intros p. rewrite !elem_of_build_idx_exact by done. split.
    + intros [(n & Hn & Hnp) (n' & Hn' & Hn'p)].
      assert (n = n') as <- by by eapply dict_injective_eq.
      exists n. split_and!; [|done..].
      apply elem_of_app in Hn as [|Hn]; [done|].
      apply elem_of_derive_prognostic in Hn.
      rewrite elem_of_app in Hn'. tauto.
    + intros (n & Hf & Hgt & Hnp). split; exists n; [|done].
      split; [|done]. apply elem_of_app. by left.
  - intros p. rewrite !elem_of_build_idx_exact by done.
    intros (n & Hn & Hnp) (n' & Hn' & Hn'p).
    assert (n = n') as <- by by eapply dict_injective_eq.
    apply elem_of_derive_prognostic in Hn.
    rewrite elem_of_app in Hn'. tauto.
Qed.

Lemma X6_data_index_cover_overlap_witness :
  ∃ di, DataIndex.__init__ ["z"; "sp"] ["sp"] [] ex_map = Ok di ∧
        (4%Z ∈ BaseTensorIndex.full (BaseIndex.input di)
         ∧ 4%Z ∈ BaseTensorIndex.full (BaseIndex.output di)) ∧
        (0%Z ∈ BaseTensorIndex.full (BaseIndex.input di)
         ∨ 0%Z ∈ BaseTensorIndex.full (BaseIndex.output di)).
Proof.
  eexists. split; [vm_compute; reflexivity|].
  destruct (X6_data_index_cover_overlap ["z"; "sp"] ["sp"] [] ex_map _
              ltac:(by apply (bool_decide_unpack _); vm_compute)
              ltac:(by apply (bool_decide_unpack _); vm_compute)
              eq_refl) as (Hcover & Hboth & _).
  split.
  - apply Hboth. exists "sp".
    split_and!; by apply (bool_decide_unpack _); vm_compute.
  - apply (Hcover "t"). by apply (bool_decide_unpack _); vm_compute.
Defined.

(** ** The iteration order of the mapping *)

Section mapping_order.
Implicit Types (d : dict) (R : list string).

Lemma keys_Permutation d (d' : dict) : d ≡ₚ d' → keys d ≡ₚ keys d'.
Proof. unfold keys. by intros ->. Qed.

Lemma build_idx_Permutation d (d' : dict) R :
  d ≡ₚ d' →
  index_array d R
  = index_array d' R.
Proof.
  intros Hd. unfold index_array, positions, items.
  do 2 f_equal. apply sorted_proper. by rewrite Hd.
Qed.

Lemma derive_prognostic_Permutation forcing diagnostic targets d
    (d' : dict) :
  d ≡ₚ d' →
  derive_prognostic forcing diagnostic targets d
  ≡ₚ derive_prognostic forcing diagnostic targets d'.
Proof. intros Hd. unfold derive_prognostic, keys. by rewrite Hd. Qed.

Lemma build_idx_order d (d' : dict) R R' :
  d ≡ₚ d' → R ≡ₚ R' →
  index_array d R
  = index_array d' R'.
Proof.
  intros Hd HR. rewrite (build_idx_Permutation d d') by done.
  apply build_idx_ext. intros n. by rewrite HR.
Qed.

Lemma fmap_build_idx_order d (d' : dict) (Rs Rs' : list (list string)) :
  d ≡ₚ d' → Forall2 (≡ₚ) Rs Rs' →
  index_array d <$> Rs
  = index_array d' <$> Rs'.
Proof.
  intros Hd. induction 1 as [|R R' Rs Rs' HR _ IH]; [done|]. csimpl.
  by rewrite IH, (build_idx_order d d' R R').
Qed.
End mapping_order.

(** X7: the index arrays do not depend on the iteration order of the
    mapping.  If two mappings hold the same entries in different orders,
    a DataIndex is built over the one exactly when it is over the other,
    and the five arrays of the input index and of the output index are the
    same -- although the derived prognostic list follows the key order. *)
Theorem X7_mapping_order_irrelevant
    diagnostic forcing targets (d d' : dict) di :
  d ≡ₚ d' →
  DataIndex.__init__ diagnostic forcing targets d = Ok di →
  ∃ di', DataIndex.__init__ diagnostic forcing targets d' = Ok di' ∧
         arrays (BaseIndex.input di') = arrays (BaseIndex.input di) ∧
         arrays (BaseIndex.output di') = arrays (BaseIndex.output di) ∧
         DataIndex._prognostic di' ≡ₚ DataIndex._prognostic di.
Proof.
  intros Hd Hinit.
  assert (∃ di', DataIndex.__init__ diagnostic forcing targets d' = Ok di')
    as [di' Hinit'].
  { assert (∃ di, DataIndex.__init__ diagnostic forcing targets d = Ok di)
      as (Hf & Hg & Ht & Hfin)%data_init_Ok_iff by eauto.
    pose proof (keys_Permutation d d' Hd) as Hk.
    apply data_init_Ok_iff. split_and!; [by rewrite <-Hk..|].
    unfold dict_finite. by rewrite <-Hd. }
  exists di'. split; [done|].
  pose proof Hinit as (Hin & Hout & Hprog)%data_init_inv.
  pose proof Hinit' as (Hin' & Hout' & Hprog')%data_init_inv.
  destruct (variable_index_arrays _ _ _ _ _ _ _ _ _ Hin Hout) as [-> ->].
  destruct (variable_index_arrays _ _ _ _ _ _ _ _ _ Hin' Hout') as [-> ->].
  pose proof (derive_prognostic_Permutation forcing diagnostic targets
                d d' Hd) as Hperm.
  split_and!.
  - symmetry. apply fmap_build_idx_order; [done|].
    repeat constructor; by rewrite ?Hperm.
  - symmetry. apply fmap_build_idx_order; [done|].
    repeat constructor; by rewrite ?Hperm.
  - by rewrite Hprog, Hprog', Hperm.
Qed.

Lemma X7_mapping_order_irrelevant_witness :
  ∃ di di',
    DataIndex.__init__ ["z"] ["sp"] [] ex_map = Ok di ∧
    DataIndex.__init__ ["z"] ["sp"] [] (reverse ex_map) = Ok di' ∧
    arrays (BaseIndex.input di') = arrays (BaseIndex.input di) ∧
    arrays (BaseIndex.output di') = arrays (BaseIndex.output di).
Proof.
  eexists.
  destruct (X7_mapping_order_irrelevant ["z"] ["sp"] [] ex_map
              (reverse ex_map) _ (symmetry (reverse_Permutation ex_map))
              eq_refl) as (di' & Hinit' & Hin & Hout & _).
  exists di'. split; [vm_compute; reflexivity|]. split; [exact Hinit'|].
  split; [exact Hin|exact Hout].
Defined.

(** ** Equality of variable indices *)

(** X8: two variable indices compare equal, without raising, whenever the
    five arrays of their input indices and of their output indices agree:
    role lists, mappings, [includes] and the known-future and additional
    variables play no part, so an index compares equal to the same index
    with other known-future and additional variables, whose input length
    may differ.  When the arrays have equal lengths pairwise and the
    positions of the right operand are below 10^5 in absolute value, the
    result is true exactly when all ten arrays agree. *)
Theorem X8_index_equality (self other : BaseIndex.t) :
  (arrays (BaseIndex.input self) = arrays (BaseIndex.input other) →
   arrays (BaseIndex.output self) = arrays (BaseIndex.output other) →
   BaseIndex.__eq__ self (Instance other) = Ok (Bool true)) ∧
  (∀ kf add,
     BaseIndex.__eq__ self
       (Instance (BaseIndex.mk
                    (InputTensorIndex.mk (BaseIndex.input self) kf add)
                    (BaseIndex.output self)))
     = Ok (Bool true)) ∧
  (length <$> arrays (BaseIndex.input self)
   = length <$> arrays (BaseIndex.input other) →
   length <$> arrays (BaseIndex.output self)
   = length <$> arrays (BaseIndex.output other) →
   Forall (Forall small_position) (arrays (BaseIndex.input other)) →
   Forall (Forall small_position) (arrays (BaseIndex.output other)) →
   BaseIndex.__eq__ self (Instance other)
   = Ok (Bool (bool_decide
                 (arrays (BaseIndex.input self)
                  = arrays (BaseIndex.input other)
                  ∧ arrays (BaseIndex.output self)
                    = arrays (BaseIndex.output other))))).
Proof.
  split_and!.
  - intros Hin Hout. unfold BaseIndex.__eq__.
    by rewrite !eq_instance_refl.
  - intros kf add. unfold BaseIndex.__eq__. simpl.
    by rewrite !eq_instance_refl.
  - intros Hlen Hlen' Hsmall Hsmall'. unfold BaseIndex.__eq__.
    rewrite !eq_instance_small by done. simpl. do 2 f_equal.
    repeat case_bool_decide; simpl; tauto.
Qed.

Lemma X8_index_equality_witness :
  ∃ di mi,
    DataIndex.__init__ ["z"] ["sp"] [] ex_map = Ok di ∧
    ModelIndex.__init__ ["z"] ["sp"] [] ex_map ex_map ["sp"] ["extra"]
    = Ok mi ∧
    InputTensorIndex.__len__ (BaseIndex.input di) = 4%nat ∧
    InputTensorIndex.__len__ (BaseIndex.input mi) = 7%nat ∧
    BaseIndex.__eq__ di (Instance (mi : BaseIndex.t)) = Ok (Bool true).
Proof.
  do 2 eexists. split_and!; [vm_compute; reflexivity..|].
  apply (proj1 (X8_index_equality _ _)); vm_compute; reflexivity.
Defined.

(** ** Attribute access and export *)

(** X9: on a tensor index, [self[key]] is a tensor exactly for the keys of
    [todict()], and it is the exported tensor; on a variable index,
    [index[side][role]] is a tensor exactly when [todict()[side][role]]
    exists, and it is that tensor. *)
Theorem X9_getitem_todict :
  (∀ (self : BaseTensorIndex.t) key v,
     BaseTensorIndex.__getitem__ self key = Some (AttrTensor v)
     ↔ BaseTensorIndex.todict self !! key = Some v) ∧
  (∀ (self : InputTensorIndex.t) key v,
     InputTensorIndex.__getitem__ self key = Some (AttrTensor v)
     ↔ BaseTensorIndex.todict self !! key = Some v) ∧
  (∀ (index : BaseIndex.t) side role v,
     getitem_path index side role = Some (AttrTensor v)
     ↔ ∃ inner, BaseIndex.todict index !! side = Some inner
                ∧ inner !! role = Some v).
Proof.
  assert (∀ (self : BaseTensorIndex.t) key v,
            BaseTensorIndex.__getitem__ self key = Some (AttrTensor v)
            ↔ BaseTensorIndex.todict self !! key = Some v) as Hbase.
  { intros self key v.
    unfold BaseTensorIndex.__getitem__, BaseTensorIndex.__dict__,
      BaseTensorIndex.todict.
    rewrite !lookup_insert, !lookup_singleton.
    repeat case_decide; split; congruence. }
  assert (∀ (self : InputTensorIndex.t) key v,
            InputTensorIndex.__getitem__ self key = Some (AttrTensor v)
            ↔ BaseTensorIndex.todict self !! key = Some v) as Hinput.
  { intros self key v. rewrite <-Hbase.
    unfold InputTensorIndex.__getitem__, InputTensorIndex.__dict__,
      BaseTensorIndex.__getitem__.
    rewrite !lookup_insert.
    repeat case_decide; subst; [split; [done|]..|done];
      unfold BaseTensorIndex.__dict__; by simplify_map_eq. }
  split_and!; [done..|].
  intros index side role v.
  unfold getitem_path, BaseIndex.__getitem__, BaseIndex.todict.
  rewrite lookup_insert, lookup_singleton.
  repeat case_decide; subst; try done.
  - rewrite Hinput. split; [eauto|by intros (? & [= <-] & ?)].
  - rewrite Hbase. split; [eauto|by intros (? & [= <-] & ?)].
  - split; [done|by intros (? & ? & ?)].
Qed.

(** ** The two kinds of variable index *)

(** X10: in every DataIndex the input index has no known-future and no
    additional variables, so its length is [len(full)]; input and output
    index are built over the same mapping and have the same four role
    arrays, differing only in [includes] and [full]. *)
Theorem X10_data_index_shape diagnostic forcing targets (d : dict) di :
  DataIndex.__init__ diagnostic forcing targets d = Ok di →
  let input : InputTensorIndex.t := BaseIndex.input di in
  let output : OutputTensorIndex.t := BaseIndex.output di in
  InputTensorIndex._known_future_variables input = [] ∧
  InputTensorIndex._additional_model_variables input = [] ∧
  InputTensorIndex.__len__ input = length (BaseTensorIndex.full input) ∧
  BaseTensorIndex.name_to_index input = d ∧
  BaseTensorIndex.name_to_index output = d ∧
  BaseTensorIndex.prognostic input = BaseTensorIndex.prognostic output ∧
  BaseTensorIndex.diagnostic input = BaseTensorIndex.diagnostic output ∧
  BaseTensorIndex.forcing input = BaseTensorIndex.forcing output ∧
  BaseTensorIndex.targets input = BaseTensorIndex.targets output.
Proof.
  intros (Hin & Hout & _)%data_init_inv input output.
  pose proof Hin as (Hbase & Hkf & Hadd)%input_init_inv.
  rewrite lookup_empty in Hkf, Hadd. simpl in Hkf, Hadd.
  assert (InputTensorIndex.__len__ input
          = length (BaseTensorIndex.full input)) as Hlen.
  { unfold input.
    rewrite (input_len_full _ _ _ _ _ _ _ _ Hin), Hkf, Hadd; [simpl; lia| |].
    - intros n _. rewrite elem_of_app. tauto.
    - intros n _ [Hp Hf]. apply elem_of_derive_prognostic in Hp. tauto. }
  apply init_inv in Hbase as [_ Hbase].
  apply output_init_inv, init_inv in Hout as [_ Hout].
  subst input output. rewrite Hbase, Hout in *. by split_and!.
Qed.

Lemma X10_data_index_shape_witness :
  ∃ di, DataIndex.__init__ ["z"] ["sp"] [] ex_map = Ok di ∧
        InputTensorIndex.__len__ (BaseIndex.input di)
        = length (BaseTensorIndex.full (BaseIndex.input di)) ∧
        BaseTensorIndex.diagnostic (BaseIndex.input di)
        = BaseTensorIndex.diagnostic (BaseIndex.output di).
Proof.
  eexists. split; [vm_compute; reflexivity|].
  destruct (X10_data_index_shape ["z"] ["sp"] [] ex_map _ eq_refl)
    as (_ & _ & Hlen & _ & _ & _ & Hg & _).
  split; [exact Hlen|exact Hg].
Defined.

(** X11: a ModelIndex built over one mapping for both sides, without
    known-future and additional variables, is built exactly when the
    DataIndex over that mapping is, with the same derived prognostic list
    and the same input and output index. *)
Theorem X11_model_index_over_one_mapping
    diagnostic forcing targets (d : dict) :
  (∀ di, DataIndex.__init__ diagnostic forcing targets d = Ok di →
         ∃ mi, ModelIndex.__init__ diagnostic forcing targets d d [] []
               = Ok mi ∧
               ModelIndex.base mi = DataIndex.base di ∧
               ModelIndex._prognostic mi = DataIndex._prognostic di) ∧
  (∀ mi, ModelIndex.__init__ diagnostic forcing targets d d [] [] = Ok mi →
         ∃ di, DataIndex.__init__ diagnostic forcing targets d = Ok di ∧
               ModelIndex.base mi = DataIndex.base di ∧
               ModelIndex._prognostic mi = DataIndex._prognostic di).
Proof.
  assert (∀ R includes,
            InputTensorIndex.__init__ R diagnostic forcing targets includes d
              {[ "additional_model_variables" := [];
                 "known_future_variables" := [] ]}
            = InputTensorIndex.__init__ R diagnostic forcing targets
                includes d ∅) as Hkw.
  { intros R includes. unfold InputTensorIndex.__init__.
    by rewrite model_kwargs_known_future, model_kwargs_additional,
      lookup_empty. }
  unfold DataIndex.__init__, ModelIndex.__init__. cbv zeta.
  rewrite Hkw. split.
  - intros di (ti & -> & (to & -> & [= <-])%bind_Ok)%bind_Ok. simpl. eauto.
  - intros mi (ti & -> & (to & -> & [= <-])%bind_Ok)%bind_Ok. simpl. eauto.
Qed.

Lemma X11_model_index_over_one_mapping_witness :
  ∃ di mi,
    DataIndex.__init__ ["z"] ["sp"] [] ex_map = Ok di ∧
    ModelIndex.__init__ ["z"] ["sp"] [] ex_map ex_map [] [] = Ok mi ∧
    ModelIndex.base mi = DataIndex.base di.
Proof.
  eexists.
  destruct (proj1 (X11_model_index_over_one_mapping ["z"] ["sp"] [] ex_map)
              _ eq_refl) as (mi & Hmi & Hbase & _).
  exists mi. split; [vm_compute; reflexivity|]. split; [exact Hmi|exact Hbase].
Defined.

(** ** Order under rounding *)

Section rounding_order.
Local Open Scope Z_scope.

Lemma round_shift_cases k a :
  torch.round_shift k a = a / 2 ^ k * 2 ^ k ∨ torch.round_shift k a = (a / 2 ^ k + 1) * 2 ^ k.
Proof.
  unfold torch.round_shift. cbv zeta.
  destruct (_ <? _); [by left|]. destruct (_ <? _); [by right|].
  destruct (Z.even _); auto.
Qed.

Lemma round_shift_mono k a b :
  0 < k → 0 ≤ a ≤ b → torch.round_shift k a ≤ torch.round_shift k b.
Proof.
  intros Hk [Ha Hab].
  assert (0 < 2 ^ k) as Hm by (apply Z.pow_pos_nonneg; lia).
  pose proof (Z.div_le_mono a b (2 ^ k) Hm Hab) as Hq.
  destruct (Z.eq_dec (a / 2 ^ k) (b / 2 ^ k)) as [Heq|Hne].
  - pose proof (Z.div_mod a (2 ^ k) ltac:(lia)) as Hda.
    pose proof (Z.div_mod b (2 ^ k) ltac:(lia)) as Hdb.
    assert (a mod 2 ^ k ≤ b mod 2 ^ k) as Hr by (rewrite Heq in Hda; lia).
    unfold torch.round_shift. cbv zeta. rewrite Heq.
    set (q := b / 2 ^ k) in *. set (m := 2 ^ k) in *.
    destruct (Z.ltb_spec (a mod m) (2 ^ (k - 1))),
      (Z.ltb_spec (2 ^ (k - 1)) (a mod m)),
      (Z.ltb_spec (b mod m) (2 ^ (k - 1))),
      (Z.ltb_spec (2 ^ (k - 1)) (b mod m)),
      (Z.even q); nia.
  - destruct (round_shift_cases k a) as [->| ->],
      (round_shift_cases k b) as [->| ->]; nia.
Qed.

Lemma shift_quotient_bounds p x :
  0 < p → 0 < Z.log2 x + 1 - p →
  2 ^ (p - 1) ≤ x / 2 ^ (Z.log2 x + 1 - p) < 2 ^ p.
Proof.
  intros Hp Hk.
  assert (0 < x) as Hx.
  { destruct (Z.le_gt_cases x 0) as [Hle|]; [|done].
    rewrite (Z.log2_nonpos x) in Hk by done. lia. }
  pose proof (Z.log2_spec x Hx) as [Hlo Hhi].
  set (k := Z.log2 x + 1 - p) in *.
  assert (0 < 2 ^ k) by (apply Z.pow_pos_nonneg; lia).
  assert (2 ^ Z.log2 x = 2 ^ (p - 1) * 2 ^ k) as Hpow1.
  { rewrite <-Z.pow_add_r by lia. f_equal. lia. }
  assert (2 ^ Z.succ (Z.log2 x) = 2 ^ k * 2 ^ p) as Hpow2.
  { rewrite <-Z.pow_add_r by lia. f_equal. lia. }
  split.
  - apply Z.div_le_lower_bound; lia.
  - apply Z.div_lt_upper_bound; lia.
Qed.

Lemma round_prec_mono_nonneg p a b :
  0 < p → 0 ≤ a ≤ b → torch.round_prec p a ≤ torch.round_prec p b.
Proof.
  intros Hp [Ha Hab]. unfold torch.round_prec. cbv zeta.
  rewrite !Z.abs_eq by lia.
  pose proof (Z.log2_le_mono a b Hab) as Hlog.
  destruct (Z.leb_spec (Z.log2 a + 1 - p) 0) as [Hka|Hka],
    (Z.leb_spec (Z.log2 b + 1 - p) 0) as [Hkb|Hkb]; [lia| |lia|].
  - (* a exact, b rounded *)
    assert (0 < b) as Hb.
    { destruct (Z.le_gt_cases b 0) as [Hle|]; [|done].
      rewrite (Z.log2_nonpos b) in Hkb by done. lia. }
    rewrite (Z.sgn_pos b), Z.mul_1_l by done.
    pose proof (shift_quotient_bounds p b Hp Hkb) as [Hq _].
    set (k := Z.log2 b + 1 - p) in *.
    assert (0 < 2 ^ k) by (apply Z.pow_pos_nonneg; lia).
    assert (a < 2 ^ p) as Hap.
    { destruct (Z.eq_dec a 0) as [->|]; [apply Z.pow_pos_nonneg; lia|].
      apply Z.log2_lt_pow2; lia. }
    assert (2 ^ p = 2 * 2 ^ (p - 1)) as Hpp.
    { rewrite <-Z.pow_succ_r by lia. f_equal. lia. }
    assert (2 ≤ 2 ^ k).
    { change 2 with (2 ^ 1) at 1. apply Z.pow_le_mono_r; lia. }
    destruct (round_shift_cases k b) as [->| ->]; nia.
  - (* both rounded *)
    assert (0 < a) as Ha'.
    { destruct (Z.le_gt_cases a 0) as [Hle|]; [|done].
      rewrite (Z.log2_nonpos a) in Hka by done. lia. }
    rewrite !Z.sgn_pos, !Z.mul_1_l by lia.
    destruct (Z.eq_dec (Z.log2 a) (Z.log2 b)) as [Heq|Hne].
    + rewrite Heq. apply round_shift_mono; lia.
    + pose proof (shift_quotient_bounds p a Hp Hka) as [_ Hqa].
      pose proof (shift_quotient_bounds p b Hp Hkb) as [Hqb _].
      set (ka := Z.log2 a + 1 - p) in *. set (kb := Z.log2 b + 1 - p) in *.
      assert (0 < 2 ^ ka) by (apply Z.pow_pos_nonneg; lia).
      assert (2 ^ kb = 2 ^ (kb - ka) * 2 ^ ka) as Hkk.
      { rewrite <-Z.pow_add_r by lia. f_equal. lia. }
      assert (2 ≤ 2 ^ (kb - ka)).
      { change 2 with (2 ^ 1) at 1. apply Z.pow_le_mono_r; lia. }
      assert (2 ^ p = 2 * 2 ^ (p - 1)) as Hpp.
      { rewrite <-Z.pow_succ_r by lia. f_equal. lia. }
      assert (0 < 2 ^ (p - 1)) by (apply Z.pow_pos_nonneg; lia).
      assert (torch.round_shift ka a ≤ 2 ^ p * 2 ^ ka).
      { destruct (round_shift_cases ka a) as [->| ->]; nia. }
      assert (2 ^ (p - 1) * 2 ^ kb ≤ torch.round_shift kb b).
      { assert (0 < 2 ^ kb) by (apply Z.pow_pos_nonneg; lia).
        destruct (round_shift_cases kb b) as [->| ->]; nia. }
      rewrite Hkk in *. nia.
Qed.

Lemma round_prec_opp p i : torch.round_prec p (- i) = - torch.round_prec p i.
Proof.
  unfold torch.round_prec. cbv zeta. rewrite Z.abs_opp, Z.sgn_opp.
  destruct (_ <=? _); lia.
Qed.

Lemma round_prec_0 p : torch.round_prec p 0 = 0.
Proof. unfold torch.round_prec. cbv zeta. simpl. by destruct (_ <=? _). Qed.

Lemma round_prec_mono p i j :
  0 < p → i ≤ j → torch.round_prec p i ≤ torch.round_prec p j.
Proof.
  intros Hp Hij.
  destruct (Z.le_gt_cases 0 i) as [Hi|Hi].
  - apply round_prec_mono_nonneg; lia.
  - destruct (Z.le_gt_cases 0 j) as [Hj|Hj].
    + pose proof (round_prec_mono_nonneg p 0 j Hp ltac:(lia)) as H1.
      pose proof (round_prec_mono_nonneg p 0 (- i) Hp ltac:(lia)) as H2.
      rewrite round_prec_0 in H1, H2. rewrite round_prec_opp in H2. lia.
    + pose proof (round_prec_mono_nonneg p (- j) (- i) Hp ltac:(lia)) as H.
      rewrite !round_prec_opp in H. lia.
Qed.

Lemma float32_mono i j : i ≤ j → torch.float32 i ≤ torch.float32 j.
Proof.
  intros Hij. unfold torch.float32.
  apply round_prec_mono; [lia|]. by apply round_prec_mono.
Qed.

Lemma int32_float32_safe i :
  safe_position i → torch.int32 (torch.float32 i) = torch.float32 i.
Proof.
  unfold safe_position. intros Hi.
  pose proof (float32_mono (- (2 ^ 31 - 128)) i ltac:(lia)) as Hlo.
  pose proof (float32_mono i (2 ^ 31 - 128) ltac:(lia)) as Hhi.
  assert (torch.float32 (- (2 ^ 31 - 128)) = - (2 ^ 31 - 128)) as Hlo'
    by (vm_compute; reflexivity).
  assert (torch.float32 (2 ^ 31 - 128) = 2 ^ 31 - 128) as Hhi'
    by (vm_compute; reflexivity).
  rewrite Hlo' in Hlo. rewrite Hhi' in Hhi. unfold torch.int32.
  destruct (Z.leb_spec (- 2 ^ 31) (torch.float32 i)),
    (Z.ltb_spec (torch.float32 i) (2 ^ 31)); simpl; lia.
Qed.

Lemma to_int_float32_ascending l :
  Forall safe_position l → StronglySorted Z.le l →
  StronglySorted Z.le (torch.to_int (torch.float32 <$> l)).
Proof.
  unfold torch.to_int. rewrite <-list_fmap_compose.
  intros Hsafe Hsorted. induction Hsorted as [|x l _ IH Hx]; [constructor|].
  apply Forall_cons in Hsafe as [Hsx Hsl]. csimpl.
  constructor; [by apply IH|].
  apply Forall_fmap, Forall_forall. intros y Hy.
  rewrite Forall_forall in Hx, Hsl. simpl.
  rewrite !int32_float32_safe by auto. apply float32_mono. auto.
Qed.

Lemma build_idx_ascending (d : dict) R :
  dict_safe d →
  StronglySorted Z.le (index_array d R).
Proof.
  intros Hd. unfold index_array.
  apply to_int_float32_ascending; [|apply sorted_StronglySorted].
  rewrite sorted_Permutation. unfold dict_safe in Hd.
  rewrite Forall_forall in Hd |- *. intros i Hi.
  eapply Hd, elem_of_sublist; [done|apply positions_sublist].
Qed.
End rounding_order.

(** X12: in every validly constructed TensorIndex over a mapping whose
    positions are at most 2^31 - 128 in absolute value, each of the five
    index arrays is ascending, although not strictly where the float32
    tensor rounds two positions to the same value: rounding to float32
    keeps the order the positions were sorted in. *)
Theorem X12_arrays_ascending
    prognostic diagnostic forcing targets includes (d : dict) t :
  dict_safe d →
  BaseTensorIndex.__init__ prognostic diagnostic forcing targets includes d
  = Ok t →
  Forall (StronglySorted Z.le) (arrays t).
Proof.
  intros Hd [_ ->]%init_inv. unfold arrays. simpl.
  repeat constructor; by apply build_idx_ascending.
Qed.

Lemma X12_arrays_ascending_witness :
  ∃ t, BaseTensorIndex.__init__ ["b"] [] [] [] ["a"; "b"] wide_map = Ok t ∧
       BaseTensorIndex.full t = [16777216; 16777216]%Z ∧
       Forall (StronglySorted Z.le) (arrays t).
Proof.
  eexists. split; [vm_compute; reflexivity|]. split; [reflexivity|].
  apply (X12_arrays_ascending ["b"] [] [] [] ["a"; "b"] wide_map).
  - repeat constructor; unfold safe_position; simpl; lia.
  - vm_compute. reflexivity.
Defined.

(** ** Role arrays inside [full] *)

Section subsequences.
Implicit Types (d : dict) (R : list string).

Lemma StronglySorted_submseteq_sublist (l1 l2 : list Z) :
  StronglySorted Z.le l1 → StronglySorted Z.le l2 →
  l1 ⊆+ l2 → l1 `sublist_of` l2.
Proof.
  intros H1 H2. revert l1 H1.
  induction H2 as [|y l2 Hs2 IH Hy]; intros l1 H1 Hsub.
  - apply submseteq_nil_r in Hsub as ->. constructor.
  - apply submseteq_cons_r in Hsub as [Hsub|(l' & Hperm & Hsub)].
    + apply sublist_cons. by apply IH.
    + destruct l1 as [|x l1].
      { by apply Permutation_nil_cons in Hperm. }
      apply StronglySorted_cons in H1 as [Hx H1].
      rewrite Forall_forall in Hx, Hy.
      assert (x = y) as ->.
      { assert (y ∈ x :: l1) as Hyin by (rewrite Hperm; left).
        assert (x ∈ y :: l') as Hxin by (rewrite <-Hperm; left).
        apply elem_of_cons in Hyin as [|Hyin]; [done|].
        apply elem_of_cons in Hxin as [|Hxin]; [done|].
        pose proof (Hx y Hyin).
        pose proof (Hy x (elem_of_submseteq _ _ _ Hxin Hsub)). lia. }
      apply Permutation_cons_inv in Hperm.
      apply sublist_skip, IH; [done|]. by rewrite Hperm.
Qed.

Lemma sorted_sublist (l1 l2 : list Z) :
  l1 `sublist_of` l2 → sorted l1 `sublist_of` sorted l2.
Proof.
  intros Hsub.
  apply StronglySorted_submseteq_sublist; try apply sorted_StronglySorted.
  rewrite !sorted_Permutation. by apply sublist_submseteq.
Qed.

Lemma positions_sublist_mono d R R' :
  (∀ n, n ∈ keys d → n ∈ R → n ∈ R') →
  positions d R `sublist_of` positions d R'.
Proof.
  intros HR. unfold positions, items. apply fmap_sublist.
  assert (filter (λ ni : string * Z, ni.1 ∈ R) d
          = filter (λ ni : string * Z, ni.1 ∈ R)
              (filter (λ ni : string * Z, ni.1 ∈ R') d)) as ->;
    [|apply sublist_filter].
  rewrite list_filter_filter. apply filter_ext_in.
  intros [n i] Hin. simpl. split; [|tauto].
  intros Hn. split; [done|]. apply HR; [|done].
  by apply (list_elem_of_fmap_2 fst _ (n, i)).
Qed.

Lemma build_idx_sublist d R R' :
  (∀ n, n ∈ keys d → n ∈ R → n ∈ R') →
  index_array d R
  `sublist_of` index_array d R'.
Proof.
  intros HR. unfold index_array, torch.to_int.
  by apply fmap_sublist, fmap_sublist, sorted_sublist,
    positions_sublist_mono.
Qed.
End subsequences.

(** X14: in every validly constructed TensorIndex, the array of a role all
    of whose names among the keys are in [includes] is a subsequence of
    [full]: its entries occur in [full], in the same order.  So in a
    DataIndex and in a ModelIndex the forcing and prognostic arrays of the
    input index are subsequences of its [full], and the diagnostic and
    targets arrays of the output index of its [full]. *)
Theorem X14_role_arrays_within_full :
  (∀ prognostic diagnostic forcing targets includes (d : dict) t,
     BaseTensorIndex.__init__ prognostic diagnostic forcing targets
       includes d = Ok t →
     ((∀ n, n ∈ keys d → n ∈ prognostic → n ∈ includes) →
      BaseTensorIndex.prognostic t `sublist_of` BaseTensorIndex.full t) ∧
     ((∀ n, n ∈ keys d → n ∈ diagnostic → n ∈ includes) →
      BaseTensorIndex.diagnostic t `sublist_of` BaseTensorIndex.full t) ∧
     ((∀ n, n ∈ keys d → n ∈ forcing → n ∈ includes) →
      BaseTensorIndex.forcing t `sublist_of` BaseTensorIndex.full t) ∧
     ((∀ n, n ∈ keys d → n ∈ targets → n ∈ includes) →
      BaseTensorIndex.targets t `sublist_of` BaseTensorIndex.full t)) ∧
  (∀ diagnostic forcing targets (d : dict) di,
     DataIndex.__init__ diagnostic forcing targets d = Ok di →
     roles_within_full di) ∧
  (∀ diagnostic forcing targets (d dout : dict) kf add mi,
     ModelIndex.__init__ diagnostic forcing targets d dout kf add = Ok mi →
     roles_within_full mi).
Proof.
  assert (∀ g f t d dout kw kw' (index : BaseIndex.t),
            InputTensorIndex.__init__ (derive_prognostic f g t d) g f t
              (f ++ derive_prognostic f g t d) d kw
            = Ok (BaseIndex.input index) →
            OutputTensorIndex.__init__ (derive_prognostic f g t d) g f t
              (g ++ t) dout kw' = Ok (BaseIndex.output index) →
            roles_within_full index) as Hwithin.
  { intros g f t d dout kw kw' index Hin Hout.
    destruct (variable_index_arrays _ _ _ _ _ _ _ _ _ Hin Hout)
      as [[= Hp _ Hf _ Hfull] [= _ Hg' _ Ht' Hfull']].
    unfold roles_within_full. rewrite Hp, Hf, Hfull, Hg', Ht', Hfull'.
    split_and!; apply build_idx_sublist; intros n _ Hn;
      apply elem_of_app; auto. }
  split_and!.
  - intros p g f t i d ti [_ ->]%init_inv. simpl.
    split_and!; apply build_idx_sublist.
  - intros g f t d di (Hin & Hout & _)%data_init_inv. by eapply Hwithin.
  - intros g f t d dout kf add mi (Hin & Hout & _)%model_init_inv.
    by eapply Hwithin.
Qed.

Lemma X14_role_arrays_within_full_witness :
  ∃ mi, ModelIndex.__init__ ["z"] ["sp"] [] ex_map ex_map ["sp"] [] = Ok mi ∧
        roles_within_full mi.
Proof.
  eexists. split; [vm_compute; reflexivity|].
  eapply (proj2 (proj2 X14_role_arrays_within_full) ["z"] ["sp"] [] ex_map
            ex_map ["sp"] []).
  vm_compute. reflexivity.
Defined.

(** ** Prognostic positions *)

Section apart.
Lemma build_idx_apart (d : dict) (R R' : list string) p :
  dict_exact d → dict_injective d →
  (∀ n, n ∈ R → n ∉ R') →
  p ∈ index_array d R →
  p ∉ index_array d R'.
Proof.
  intros Hexact Hinj HR. rewrite !elem_of_build_idx_exact by done.
  intros (n & Hn & Hnp) (n' & Hn' & Hn'p).
  assert (n = n') as <- by by eapply dict_injective_eq.
  by destruct (HR n Hn).
Qed.

Lemma init_prognostic_apart forcing diagnostic targets includes
    (d d' : dict) t :
  dict_exact d' → dict_injective d' →
  BaseTensorIndex.__init__ (derive_prognostic forcing diagnostic targets d)
    diagnostic forcing targets includes d' = Ok t →
  prognostic_apart t.
Proof.
  intros Hexact Hinj [_ ->]%init_inv p. simpl. intros Hp.
  split_and!; eapply build_idx_apart; try done;
    intros n Hn%elem_of_derive_prognostic; tauto.
Qed.
End apart.

(** X15: over injective mappings whose positions the float32 tensor stores
    exactly, the prognostic array of the input index and of the output
    index of a DataIndex or ModelIndex shares no position with the
    diagnostic, forcing and targets arrays of that index: the derived
    prognostic role is apart from the three given roles in the arrays as
    it is in the name lists. *)
Theorem X15_prognostic_positions_apart
    diagnostic forcing targets (d dout : dict) kf add :
  dict_exact d → dict_injective d →
  (∀ di, DataIndex.__init__ diagnostic forcing targets d = Ok di →
         prognostic_apart (BaseIndex.input di) ∧
         prognostic_apart (BaseIndex.output di)) ∧
  (dict_exact dout → dict_injective dout →
   ∀ mi, ModelIndex.__init__ diagnostic forcing targets d dout kf add
         = Ok mi →
         prognostic_apart (BaseIndex.input mi) ∧
         prognostic_apart (BaseIndex.output mi)).
Proof.
  intros Hexact Hinj. split.
  - intros di (Hin & Hout & _)%data_init_inv.
    apply input_init_inv in Hin as [Hin _]. apply output_init_inv in Hout.
    split; by eapply init_prognostic_apart.
  - intros Hexact' Hinj' mi (Hin & Hout & _)%model_init_inv.
    apply input_init_inv in Hin as [Hin _]. apply output_init_inv in Hout.
    split.
    + by eapply (init_prognostic_apart _ _ _ _ d d).
    + by eapply (init_prognostic_apart _ _ _ _ d dout).
Qed.

Lemma X15_prognostic_positions_apart_witness :
  ∃ di, DataIndex.__init__ ["z"] ["sp"] ["z"] ex_map = Ok di ∧
        prognostic_apart (BaseIndex.input di) ∧
        prognostic_apart (BaseIndex.output di).
Proof.
  eexists. split; [vm_compute; reflexivity|].
  apply (proj1 (X15_prognostic_positions_apart ["z"] ["sp"] ["z"] ex_map
                  ex_map [] []
                  ltac:(by apply (bool_decide_unpack _); vm_compute)
                  ltac:(by apply (bool_decide_unpack _); vm_compute))).
  vm_compute. reflexivity.
Defined.

(** ** Positions that are never rounded *)

(** X13: when every position of the mapping lies between -2^24 and 2^24,
    the float32 tensor stores them all exactly, and every index array is
    the ascending list of the positions of the mapping's entries whose
    name is in the role list: the way through the float32 tensor changes
    nothing. *)
Theorem X13_small_positions_exact (d : dict) :
  (∀ i, i ∈ d.*2 → - 2 ^ 24 ≤ i ≤ 2 ^ 24)%Z →
  dict_exact d ∧
  ∀ R, BaseTensorIndex._build_idx_from_list d R
       = Ok (sorted (positions d R)).
Proof.
  intros Hsmall.
  assert (dict_exact d) as Hexact.
  { apply Forall_forall. intros i Hi. by apply exact_position_small, Hsmall. }
  split; [done|]. intros R.
  rewrite build_idx_Ok by by apply positions_finite, dict_exact_finite.
  by rewrite build_idx_exact.
Qed.

Lemma X13_small_positions_exact_witness :
  dict_exact ex_map ∧
  BaseTensorIndex._build_idx_from_list ex_map ["v"; "t"]
  = Ok (sorted (positions ex_map ["v"; "t"])).
Proof.
  destruct (X13_small_positions_exact ex_map) as [Hexact Hbuild].
  - apply Forall_forall. by apply (bool_decide_unpack _); vm_compute.
  - split; [exact Hexact|apply Hbuild].
Defined.

(** ** When a comparison raises, and what empty arrays equal *)

Section comparison_edges.
Implicit Types (a b : tensor).

Lemma allclose_Raise a b e :
  torch.allclose a b = Raise e → e = RuntimeError ∧ shape_mismatch (a, b).
Proof.
  unfold torch.allclose, torch.broadcast, shape_mismatch. simpl.
  repeat case_decide; simpl; try done. by intros [= <-].
Qed.

Lemma allclose_mismatch a b :
  shape_mismatch (a, b) → torch.allclose a b = Raise RuntimeError.
Proof.
  unfold torch.allclose, torch.broadcast, shape_mismatch. simpl.
  intros (? & ? & ?). by rewrite !decide_False.
Qed.

Lemma and_then_Raise (x y : result bool) e :
  and_then x y = Raise e → x = Raise e ∨ (x = Ok true ∧ y = Raise e).
Proof. destruct x as [[]|]; simpl; intros; try done; auto. Qed.

Lemma allclose_nil_l b : length b ≤ 1 → torch.allclose [] b = Ok true.
Proof. destruct b as [|y [|??]]; simpl; [done..|lia]. Qed.

Lemma allclose_nil_r a : length a ≤ 1 → torch.allclose a [] = Ok true.
Proof. destruct a as [|x [|??]]; simpl; [done..|lia]. Qed.
End comparison_edges.

(** X16: comparing two tensor indices raises only a RuntimeError, and only
    when some pair of corresponding arrays has sizes that neither agree
    nor broadcast (different lengths, neither of them 1); when the two
    prognostic arrays are such a pair, the comparison does raise. *)
Theorem X16_equality_raises (self other : BaseTensorIndex.t) :
  (∀ e, BaseTensorIndex.__eq__ self (Instance other) = Raise e →
        e = RuntimeError ∧
        Exists shape_mismatch (zip (arrays self) (arrays other))) ∧
  (shape_mismatch
     (BaseTensorIndex.prognostic self, BaseTensorIndex.prognostic other) →
   BaseTensorIndex.__eq__ self (Instance other) = Raise RuntimeError).
Proof.
  split.
  - intros e. unfold BaseTensorIndex.__eq__, BaseTensorIndex.eq_instance.
    destruct (and_then _ _) as [b|e'] eqn:Heq; simpl; [done|].
    intros [= ->]. unfold arrays. simpl.
    repeat (apply and_then_Raise in Heq as [Heq|[_ Heq]];
            [apply allclose_Raise in Heq as [-> ?];
             split; [done|]; rewrite !Exists_cons; tauto|]).
    apply allclose_Raise in Heq as [-> ?].
    split; [done|]. rewrite !Exists_cons. tauto.
  - intros Hmis. unfold BaseTensorIndex.__eq__, BaseTensorIndex.eq_instance.
    by rewrite allclose_mismatch.
Qed.

Lemma X16_equality_raises_witness :
  ∃ t1 t2,
    BaseTensorIndex.__init__ ["t"; "u"] [] [] [] [] ex_map = Ok t1 ∧
    BaseTensorIndex.__init__ ["t"; "u"; "v"] [] [] [] [] ex_map = Ok t2 ∧
    BaseTensorIndex.__eq__ t1 (Instance t2) = Raise RuntimeError.
Proof.
  do 2 eexists. split_and!; [vm_compute; reflexivity..|].
  apply (proj2 (X16_equality_raises _ _)).
  vm_compute. split_and!; discriminate.
Defined.

(** X17: a tensor index whose five arrays are empty compares equal, in
    either operand order, to every tensor index whose arrays hold at most
    one position each: an array of size 1 broadcasts to size 0, where
    nothing is left to compare. *)
Theorem X17_empty_index_equality (self other : BaseTensorIndex.t) :
  arrays self = [[]; []; []; []; []] →
  Forall (λ a, length a ≤ 1) (arrays other) →
  BaseTensorIndex.__eq__ self (Instance other) = Ok (Bool true) ∧
  BaseTensorIndex.__eq__ other (Instance self) = Ok (Bool true).
Proof.
  unfold arrays. intros [= Hp Hg Hf Ht Hfull] Hone.
  repeat (apply Forall_cons in Hone as [? Hone]).
  unfold BaseTensorIndex.__eq__, BaseTensorIndex.eq_instance.
  rewrite Hp, Hg, Hf, Ht, Hfull.
  by rewrite !allclose_nil_l, !allclose_nil_r.
Qed.

Lemma X17_empty_index_equality_witness :
  ∃ t1 t2,
    BaseTensorIndex.__init__ [] [] [] [] [] ex_map = Ok t1 ∧
    BaseTensorIndex.__init__ ["t"] ["z"] ["sp"] [] ["u"] ex_map = Ok t2 ∧
    BaseTensorIndex.__eq__ t1 (Instance t2) = Ok (Bool true) ∧
    BaseTensorIndex.__eq__ t2 (Instance t1) = Ok (Bool true).
Proof.
  pose proof (X17_empty_index_equality
                (BaseTensorIndex.mk ex_map [] [] [] [] [] [])
                (BaseTensorIndex.mk ex_map ["u"] [0%Z] [3%Z] [4%Z] [] [1%Z])
                eq_refl) as Heq.
  do 2 eexists. split_and!; [vm_compute; reflexivity..| |];
    apply Heq; repeat constructor; simpl; lia.
Defined.
